(** * Soupy: the request coordination core of [soupy_remastered.py]

  A shallow embedding of the parts of the bot that coordinate requests:
  the image job queue and its single worker ([FluxQueue]), the
  per-user rate limiter ([universal_cooldown_check]), the two caches
  consulted while the conversation context is assembled
  ([fetch_recent_messages]), the statistics store
  ([increment_user_stat]) and the dimension rounding of the edit
  dialog ([adjust_to_multiple_of_64]).  Around these: the text helpers
  of the chat path ([split_message], [clean_response],
  [remove_all_before_colon]), the uptime text ([format_uptime]), the
  page summary of [extract_url_content], the dimensions chosen by the
  [/flux] command and the submission of the edit dialog.

  Conventions.  Python integers are [Z].  Readings of [time.time()]
  and of [datetime.utcnow()] are seconds in [Q] (the float rounding of
  the subtraction is not modelled).  Dictionaries are [gmap]s, Python
  lists are [list]s.  A Python exception that leaves a function is a
  value of [result]. *)

From Stdlib Require Import ZArith QArith Qminmax Lia Lqa List Bool String Ascii.
From stdpp Require Import base option list sorting gmap strings pretty.

#[local] Open Scope string_scope.
#[local] Open Scope Z_scope.

(** ** Results of code that may raise *)

Inductive exn : Type :=
| KeyError (key : string)
| ValueError (msg : string)
| QueueEmpty
| AttributeError (msg : string)
| OtherException (msg : string).

Inductive result (A : Type) : Type :=
| Ok (a : A)
| Raise (e : exn).
Arguments Ok {A} a.
Arguments Raise {A} e.

#[global] Instance result_ret : MRet result := fun A a => Ok a.
#[global] Instance result_bind : MBind result := fun A B k r =>
  match r with
  | Ok a => k a
  | Raise e => Raise e
  end.

(** ** Dimension rounding of the edit dialog *)

Module EditImageModal.

(** [adjust_to_multiple_of_64], local to [EditImageModal.on_submit].
    Python's [//] is floor division, as is [Z.div]. *)
Definition adjust_to_multiple_of_64 (value : Z) : Z :=
  if value <=? 0 then 64 else ((value + 63) / 64) * 64.

End EditImageModal.

(** ** The job queue *)

Module AsyncQueue.

(** The part of [asyncio.Queue] (unbounded) that [FluxQueue] uses: the
    deque of items and the count of unfinished tasks. *)
Record t (A : Type) : Type := mk {
  items : list A;
  unfinished_tasks : nat
}.
Arguments mk {A} _ _.
Arguments items {A} _.
Arguments unfinished_tasks {A} _.

Definition new {A} : t A := mk [] 0.

Definition empty {A} (q : t A) : bool :=
  match items q with [] => true | _ => false end.

Definition put_nowait {A} (x : A) (q : t A) : t A :=
  mk (items q ++ [x])%list (S (unfinished_tasks q)).

Definition get_nowait {A} (q : t A) : result (A * t A) :=
  match items q with
  | [] => Raise QueueEmpty
  | x :: rest => Ok (x, mk rest (unfinished_tasks q))
  end.

Definition task_done {A} (q : t A) : result (t A) :=
  match unfinished_tasks q with
  | O => Raise (ValueError "task_done() called too many times")
  | S n => Ok (mk (items q) n)
  end.

(** No more items than unfinished tasks: [task_done] cannot fail. *)
Definition accounted {A} (q : t A) : Prop :=
  (length (items q) <= unfinished_tasks q)%nat.

End AsyncQueue.

Module FluxQueue.
Section Items.

Context {A : Type}.

Record t : Type := mk {
  _queue : AsyncQueue.t A;
  _processing : bool;
  _shutdown : bool;
  current_size : Z
}.

(** [__init__] *)
Definition init : t := mk AsyncQueue.new false false 0.

Definition set_queue (q : AsyncQueue.t A) (s : t) : t :=
  mk q (_processing s) (_shutdown s) (current_size s).
Definition set_processing (b : bool) (s : t) : t :=
  mk (_queue s) b (_shutdown s) (current_size s).
Definition set_shutdown (b : bool) (s : t) : t :=
  mk (_queue s) (_processing s) b (current_size s).
Definition set_current_size (n : Z) (s : t) : t :=
  mk (_queue s) (_processing s) (_shutdown s) n.

(** [put]: the counter goes up, then the item is appended.  The queue
    is unbounded, so [await self._queue.put(item)] never suspends. *)
Definition put (item : A) (s : t) : t :=
  let s := set_current_size (current_size s + 1) s in
  set_queue (AsyncQueue.put_nowait item (_queue s)) s.

(** [get]: [None] while the queue is empty (the coroutine stays
    suspended in [await self._queue.get()]); otherwise the head is
    taken and the counter goes down. *)
Definition get (s : t) : option (A * t) :=
  match AsyncQueue.get_nowait (_queue s) with
  | Ok (item, q) =>
      let s := set_queue q s in
      Some (item, set_current_size (current_size s - 1) s)
  | Raise _ => None
  end.

Definition qsize (s : t) : Z := current_size s.

(** The [while not self._queue.empty()] loop of [initiate_shutdown].
    Every round removes one item, so the number of items bounds the
    number of rounds. *)
Fixpoint drain (fuel : nat) (q : AsyncQueue.t A) : result (AsyncQueue.t A) :=
  if AsyncQueue.empty q then Ok q
  else
    match fuel with
    | O => Ok q
    | S fuel =>
        match AsyncQueue.get_nowait q with
        | Raise QueueEmpty => Ok q
        | Raise e => Raise e
        | Ok (_, q) =>
            q ← AsyncQueue.task_done q;
            drain fuel q
        end
    end.

Definition initiate_shutdown (s : t) : result t :=
  let s := set_shutdown true s in
  q ← drain (length (AsyncQueue.items (_queue s))) (_queue s);
  Ok (set_queue q s).

(** The jobs actually held by the underlying FIFO. *)
Definition held (s : t) : list A := AsyncQueue.items (_queue s).

(** The counter tells how many jobs the FIFO holds. *)
Definition counted (s : t) : Prop :=
  qsize s = Z.of_nat (length (held s)).

End Items.
Arguments t A : clear implicits.
End FluxQueue.

(** ** The worker task [FluxQueue.process_queue] *)

Module Worker.

Inductive action : Type := random | remix | fancy | wide | tall | edit.

(** The dictionaries that the slash command and the buttons put on the
    queue.  An interaction is known by its identifier. *)
Inductive item : Type :=
| flux (interaction : Z) (description size : string) (seed : option Z)
| button (interaction : Z) (act : action) (prompt : option string)
    (width height : Z) (seed : option Z).

(** The handler call that the worker awaits for an item. *)
Inductive call : Type :=
| process_flux_image (interaction : Z) (description size : string)
    (seed : option Z)
| handle_random (interaction width height queue_size : Z)
    (direct_prompt : option string)
| handle_remix (interaction : Z) (prompt : option string)
    (width height : Z) (seed : option Z) (queue_size : Z)
| handle_fancy (interaction : Z) (prompt : option string)
    (width height : Z) (seed : option Z) (queue_size : Z)
| handle_wide (interaction : Z) (prompt : option string)
    (width height : Z) (seed : option Z) (queue_size : Z)
| handle_tall (interaction : Z) (prompt : option string)
    (width height : Z) (seed : option Z) (queue_size : Z)
| handle_edit (interaction : Z) (prompt : option string)
    (width height : Z) (seed : option Z) (queue_size : Z).

(** The [if item['type'] == ...] cascade; [self.qsize()] is read when
    the call is made, right after the item has been taken. *)
Definition dispatch (q : FluxQueue.t item) (it : item) : call :=
  match it with
  | flux i d sz sd => process_flux_image i d sz sd
  | button i random p w h _ => handle_random i w h (FluxQueue.qsize q) p
  | button i remix p w h sd => handle_remix i p w h sd (FluxQueue.qsize q)
  | button i fancy p w h sd => handle_fancy i p w h sd (FluxQueue.qsize q)
  | button i wide p w h sd => handle_wide i p w h sd (FluxQueue.qsize q)
  | button i tall p w h sd => handle_tall i p w h sd (FluxQueue.qsize q)
  | button i edit p w h sd => handle_edit i p w h sd (FluxQueue.qsize q)
  end.

(** How an awaited handler ends: it returns, or an [Exception] leaves it
    (what [except Exception] does not catch, such as a cancellation of
    the task, is not modelled). *)
Inductive outcome : Type :=
| Returned
| Raised (e : string).

(** Where the worker coroutine stands. *)
Inductive pc : Type :=
| LoopTop                          (* about to test [while not self._shutdown] *)
| Sleeping                         (* in [asyncio.sleep(0.1)] of the skip branch *)
| Waiting                          (* flag set, in [await self.get()] *)
| Running (it : item) (c : call)   (* awaiting the handler *)
| Exited.

(** What has happened so far (kept for the statements only). *)
Inductive event : Type :=
| Put (it : item)
| Discard (it : item)
| Start (it : item) (c : call)
| Finish (it : item) (o : outcome).

Record state : Type := mk {
  queue : FluxQueue.t item;
  at_pc : pc;
  errors : list string;    (* [logger.error] lines of [process_queue] *)
  trace : list event
}.

Definition init : state := mk FluxQueue.init LoopTop [] [].

(** [logger.error(f"Error processing queue item: {e}")] *)
Definition error_line (e : string) : string :=
  "Error processing queue item: " ++ e.

(** One move of the worker.  [o] is how the awaited handler ends and is
    looked at only in [Running].  [None]: the worker cannot move (it has
    left the loop, or [get] finds the queue empty). *)
Definition worker_step (o : outcome) (s : state) : option state :=
  let q := queue s in
  match at_pc s with
  | LoopTop =>
      if FluxQueue._shutdown q then
        Some (mk q Exited (errors s) (trace s))
      else if FluxQueue._processing q then
        Some (mk q Sleeping (errors s) (trace s))
      else
        Some (mk (FluxQueue.set_processing true q) Waiting (errors s) (trace s))
  | Sleeping =>
      (* [continue], through [finally] *)
      Some (mk (FluxQueue.set_processing false q) LoopTop (errors s) (trace s))
  | Waiting =>
      match FluxQueue.get q with
      | Some (it, q') =>
          let c := dispatch q' it in
          Some (mk q' (Running it c) (errors s) (trace s ++ [Start it c])%list)
      | None => None
      end
  | Running it c =>
      let errs :=
        match o with
        | Returned => errors s
        | Raised e => (errors s ++ [error_line e])%list
        end in
      Some (mk (FluxQueue.set_processing false q) LoopTop errs
              (trace s ++ [Finish it o])%list)
  | Exited => None
  end.

(** The moves of the rest of the program on the queue: a command or a
    button enqueues an item, [shutdown] drains the queue. *)
Inductive env_step : state -> state -> Prop :=
| env_put it s :
    env_step s (mk (FluxQueue.put it (queue s)) (at_pc s) (errors s)
                  (trace s ++ [Put it])%list)
| env_shutdown s q' :
    FluxQueue.initiate_shutdown (queue s) = Ok q' ->
    env_step s (mk q' (at_pc s) (errors s)
                  (trace s ++ map Discard (FluxQueue.held (queue s)))%list).

Inductive step : state -> state -> Prop :=
| step_worker o s s' : worker_step o s = Some s' -> step s s'
| step_env s s' : env_step s s' -> step s s'.

Definition reachable (s : state) : Prop := rtc step init s.

(** Readings of the trace. *)
Definition enqueued (t : list event) : list item :=
  omap (fun e => match e with Put it => Some it | _ => None end) t.
Definition dispatched (t : list event) : list item :=
  omap (fun e => match e with Start it _ => Some it | _ => None end) t.
Definition removed (t : list event) : list item :=
  omap (fun e => match e with
                 | Start it _ | Discard it => Some it
                 | _ => None end) t.
Definition finished (t : list event) : list (item * outcome) :=
  omap (fun e => match e with Finish it o => Some (it, o) | _ => None end) t.
(** The number of jobs being processed: started and not yet finished. *)
Definition in_flight (t : list event) : Z :=
  Z.of_nat (length (dispatched t)) - Z.of_nat (length (finished t)).

(** The worker alone, handlers ending as [os] foretells; stops when the
    worker cannot move or [os] is used up while a handler runs. *)
Fixpoint run (fuel : nat) (os : list outcome) (s : state) : state :=
  match fuel with
  | O => s
  | S fuel =>
      match at_pc s, os with
      | Running _ _, [] => s
      | Running _ _, o :: os' =>
          match worker_step o s with
          | Some s' => run fuel os' s'
          | None => s
          end
      | _, _ =>
          match worker_step Returned s with
          | Some s' => run fuel os s'
          | None => s
          end
      end
  end.

(** The lines that [process_queue] logs for handlers ending as [os]. *)
Definition error_lines (os : list outcome) : list string :=
  omap (fun o => match o with
                 | Raised e => Some (error_line e)
                 | Returned => None
                 end) os.

(** What holds of every state the program can be in. *)
Record invariant (s : state) : Prop := {
  inv_fifo :
    (removed (trace s) ++ FluxQueue.held (queue s))%list = enqueued (trace s);
  inv_live :
    FluxQueue._shutdown (queue s) = false ->
    removed (trace s) = dispatched (trace s);
  inv_accounted : AsyncQueue.accounted (FluxQueue._queue (queue s));
  inv_pc :
    match at_pc s with
    | LoopTop | Exited =>
        FluxQueue._processing (queue s) = false /\ in_flight (trace s) = 0
    | Waiting =>
        FluxQueue._processing (queue s) = true /\ in_flight (trace s) = 0
    | Running _ _ =>
        FluxQueue._processing (queue s) = true /\ in_flight (trace s) = 1
    | Sleeping => False
    end
}.

End Worker.

(** ** The answer of the image service in [generate_flux_image] *)

Module Flux.

(** How the [try] body goes up to the test of [response.status]. *)
Inductive attempt : Type :=
| Responded (status : Z)
| ConnectorError            (* [ClientConnectorError], [ClientOSError] *)
| ServerTimeout             (* [ServerTimeoutError] *)
| Failed (e : string).      (* any other [Exception] *)

(** What the interaction object answers.  The handlers of the queue
    pass on the [discord.Interaction] of the command or button. *)
Record interaction : Type := mk_interaction {
  user : string;
  is_interaction : bool;                (* [isinstance(interaction, discord.Interaction)] *)
  followup_send : Worker.outcome;       (* how [followup.send] of the status branch ends *)
  handler_send : Worker.outcome;        (* how [followup.send] inside an [except] handler ends *)
  deliver : Worker.outcome              (* how the sending of the image ends *)
}.

(** [interaction.followup.is_done()]: the follow-up handle of an
    interaction is a [discord.Webhook], which has no [is_done] (that is a
    method of [interaction.response]); the attribute lookup raises. *)
Definition followup_is_done : result bool :=
  Raise (AttributeError "'Webhook' object has no attribute 'is_done'").

(** What the requester and the log get to see. *)
Inductive effect : Type :=
| logged (line : string)
| sent (text : string)          (* [interaction.followup.send(text, ephemeral=True)] is called *)
| image_sent.

(** [str(e)]; a [KeyError] prints the [repr] of its key, which for a key
    without quotes or escapes (as all keys of this program) is the key in
    single quotes. *)
Definition exn_text (e : exn) : string :=
  match e with
  | KeyError k => "'" ++ k ++ "'"
  | ValueError m => m
  | QueueEmpty => ""
  | AttributeError m => m
  | OtherException m => m
  end.

(** The [if isinstance(...): try: await interaction.followup.send(text)
    except Exception as send_error: logger.error(...)] of the handlers. *)
Definition tell (i : interaction) (text : string) : list effect :=
  if is_interaction i then
    sent text
    :: match handler_send i with
       | Worker.Returned => []
       | Worker.Raised send_error =>
           [logged ("❌ Failed to send follow-up message: " ++ send_error)]
       end
  else [].

(** The last handler, [except Exception as e]. *)
Definition on_unexpected (i : interaction) (e : string) : list effect :=
  logged ("🖼️ Unexpected error during image generation for " ++ user i ++ ": " ++ e)
  :: tell i ("❌ An unexpected error occurred during image generation: " ++ e).

Definition generate_flux_image (i : interaction) (a : attempt) : list effect :=
  match a with
  | Responded status =>
      if status =? 200 then
        match deliver i with
        | Worker.Returned => [image_sent]
        | Worker.Raised e => on_unexpected i e
        end
      else
        logged ("🖼️ Flux server error for " ++ user i ++ ": HTTP " ++ pretty status)
        :: match followup_is_done with
           | Ok false =>
               sent ("❌ Flux server error: HTTP " ++ pretty status)
               :: match followup_send i with
                  | Worker.Returned => []
                  | Worker.Raised e => on_unexpected i e
                  end
           | Ok true => []
           | Raise e => on_unexpected i (exn_text e)
           end
  | ConnectorError =>
      logged ("🖼️ Flux server is offline or unreachable for " ++ user i ++ ".")
      :: tell i "❌ The Flux server is currently offline."
  | ServerTimeout =>
      logged ("🖼️ Flux server request timed out for " ++ user i ++ ".")
      :: tell i "❌ The Flux server timed out while processing your request. Please try again later."
  | Failed e => on_unexpected i e
  end.

End Flux.

(** ** The rate limiter [universal_cooldown_check] *)

Definition Qltb (x y : Q) : bool := negb (Qle_bool y x).

Module RateLimit.
Section Config.

Variable OWNER_IDS : list Z.
Variable MAX_INTERACTIONS_PER_MINUTE : Z.
Variable EXEMPT_ROLES : gset string.
(** [str.lower] *)
Variable lower : string -> string.

(** [interaction.user]: its id and, when it is a [discord.Member], the
    names of its roles. *)
Record user : Type := mk_user {
  id : Z;
  roles : option (list string)
}.

(** The [defaultdict(list)] named [user_interaction_timestamps]. *)
Definition window (tbl : gmap Z (list Q)) (user_id : Z) : list Q :=
  default [] (tbl !! user_id).

(** [[ts for ts in ... if current_time - ts < 60]] *)
Definition prune (current_time : Q) (l : list Q) : list Q :=
  List.filter (fun ts => Qltb (current_time - ts) 60) l.

Definition has_exempt_role (u : user) : bool :=
  match roles u with
  | Some rs =>
      let user_roles : gset string := list_to_set (lower <$> rs) in
      bool_decide (EXEMPT_ROLES ∩ user_roles ≠ ∅)
  | None => false
  end.

(** What the wrapper does with the call. *)
Inductive verdict : Type :=
| Called                    (* the wrapped function is called *)
| Rejected (limit : Z).     (* the "maximum of ... interactions" message *)

Definition universal_cooldown_check (u : user) (current_time : Q)
    (tbl : gmap Z (list Q)) : verdict * gmap Z (list Q) :=
  let user_id := id u in
  if bool_decide (user_id ∈ OWNER_IDS) then (Called, tbl)
  else
    let tbl := <[user_id := prune current_time (window tbl user_id)]> tbl in
    let is_exempt := has_exempt_role u in
    if negb is_exempt
       && (MAX_INTERACTIONS_PER_MINUTE <=? Z.of_nat (length (window tbl user_id)))
    then (Rejected MAX_INTERACTIONS_PER_MINUTE, tbl)
    else (Called, <[user_id := (window tbl user_id ++ [current_time])%list]> tbl).

(** The least element of a window: its oldest timestamp. *)
Definition oldest (l : list Q) : option Q :=
  match l with
  | [] => None
  | x :: l => Some (fold_left Qmin l x)
  end.

End Config.
End RateLimit.

(** ** The caches and the context assembler [fetch_recent_messages] *)

Module Context.

Definition URL_CACHE_TTL : Q := 3600.

(** A value of [image_history], as [process_image_attachment] stores it. *)
Record img_info : Type := mk_img {
  description : string;
  author : string;
  timestamp : Q;
  channel_id : Z
}.

(** Python's truth of an [Optional[str]]. *)
Definition truthy (c : option string) : bool :=
  match c with
  | Some (String _ _) => true
  | _ => false
  end.

(** The lookup at the head of the URL loop: [Some c] when the cached
    [c] is used (the loop goes on to the next URL), [None] when the URL
    is fetched. *)
Definition url_cache_get (url_cache : gmap string (option string * Q))
    (url : string) (current_time : Q) : option (option string) :=
  match url_cache !! url with
  | Some (cached_content, timestamp) =>
      if Qltb (current_time - timestamp) URL_CACHE_TTL
      then Some cached_content
      else None
  | None => None
  end.

(** [url_cache[url] = (content, current_time)] *)
Definition url_cache_put (url : string) (content : option string)
    (current_time : Q) (url_cache : gmap string (option string * Q))
    : gmap string (option string * Q) :=
  <[url := (content, current_time)]> url_cache.

(** [if msg.id in image_history: img_info = image_history[msg.id]] *)
Definition image_history_get (image_history : gmap Z img_info) (msg_id : Z)
    : option img_info :=
  image_history !! msg_id.

(** The store at the end of [process_image_attachment]. *)
Definition image_history_put (msg_id : Z) (description author : string)
    (utcnow : Q) (channel_id : Z) (image_history : gmap Z img_info)
    : gmap Z img_info :=
  <[msg_id := mk_img description author utcnow channel_id]> image_history.

(** The two clean-up passes at the end of [fetch_recent_messages]. *)
Definition old_messages (current_time : Q) (image_history : gmap Z img_info)
    : list Z :=
  omap (fun '(msg_id, info) =>
          if Qltb 3600 (current_time - timestamp info)
          then Some msg_id else None)
       (map_to_list image_history).

Definition purge_image_history (current_time : Q)
    (image_history : gmap Z img_info) : gmap Z img_info :=
  foldl (fun h msg_id => delete msg_id h) image_history
        (old_messages current_time image_history).

Definition expired_urls (current_time : Q)
    (url_cache : gmap string (option string * Q)) : list string :=
  omap (fun '(url, (_, timestamp)) =>
          if Qltb URL_CACHE_TTL (current_time - timestamp)
          then Some url else None)
       (map_to_list url_cache).

Definition purge_url_cache (current_time : Q)
    (url_cache : gmap string (option string * Q))
    : gmap string (option string * Q) :=
  foldl (fun c url => delete url c) url_cache
        (expired_urls current_time url_cache).

(** A fetched message. *)
Record message : Type := mk_message {
  msg_id : Z;
  created_at : Q;
  author_name : string;
  author_is_bot : bool;      (* [msg.author == bot.user] *)
  content : string
}.

(** The order in which [channel.history(oldest_first=False)] yields the
    messages, and the order of time. *)
Definition newest_first (l : list message) : Prop :=
  StronglySorted (fun m1 m2 => (created_at m2 < created_at m1)%Q) l.
Definition chronological (l : list message) : Prop :=
  StronglySorted (fun m1 m2 => (created_at m1 < created_at m2)%Q) l.

(** [{"role": role, "content": formatted_content}] *)
Record entry : Type := mk_entry {
  role : string;
  entry_content : string
}.

Definition startswith (p s : string) : bool := String.prefix p s.

Fixpoint contains (needle hay : string) : bool :=
  String.prefix needle hay
  || match hay with
     | EmptyString => false
     | String _ rest => contains needle rest
     end.

(** The URL cache together with the number of clock readings made. *)
Record world : Type := mk_world {
  url_cache : gmap string (option string * Q);
  ticks : nat
}.

Section Env.

(** The successive readings of [time.time()]. *)
Variable time_time : nat -> Q.
(** [extract_url_content], called after the given number of readings. *)
Variable extract_url_content : nat -> string -> option string.
Variable extract_urls : string -> list string.
(** [not s.strip()] *)
Variable is_blank : string -> bool.

(** [if content: url_contents.append(content)] *)
Definition append_content (content : option string)
    (url_contents : list string) : list string :=
  match content with
  | Some c => if truthy content then (url_contents ++ [c])%list else url_contents
  | None => url_contents
  end.

(** [for url in urls: ...] *)
Fixpoint process_urls (urls : list string) (w : world)
    (url_contents : list string) : world * list string :=
  match urls with
  | [] => (w, url_contents)
  | url :: urls =>
      let current_time := time_time (ticks w) in
      let w := mk_world (url_cache w) (S (ticks w)) in
      match url_cache_get (url_cache w) url current_time with
      | Some cached_content =>
          process_urls urls w (append_content cached_content url_contents)
      | None =>
          let content := extract_url_content (ticks w) url in
          let w := mk_world (url_cache_put url content current_time (url_cache w))
                            (ticks w) in
          process_urls urls w (append_content content url_contents)
      end
  end.

(** The lists built by the loop. Each entry is kept with the message it
    was formatted from; only the entries are returned. *)
Record acc : Type := mk_acc {
  the_world : world;
  seen_messages : gset string;
  current_topic_messages : list (message * entry);
  background_messages : list (message * entry)
}.

Definition skipped (current_message_id : option Z) (msg : message) : bool :=
  startswith "!" (content msg)
  || (author_is_bot msg && contains "Generated Image" (content msg))
  || match current_message_id with
     | Some i => negb (i =? 0) && (msg_id msg =? i)
     | None => false
     end.

Definition newline : string := String (ascii_of_nat 10) EmptyString.

(** The body of [async for msg in channel.history(...)]. *)
Definition process_message (image_history : gmap Z img_info)
    (current_message_id : option Z) (a : acc) (msg : message) : acc :=
  if skipped current_message_id msg then a
  else
    let message_content := content msg in
    let urls := extract_urls message_content in
    let '(w, url_contents) := process_urls urls (the_world a) [] in
    let message_content :=
      match url_contents with
      | [] => message_content
      | _ => message_content ++ newline ++ String.concat " " url_contents
      end in
    let message_content :=
      match image_history_get image_history (msg_id msg) with
      | Some img_info =>
          if is_blank message_content
          then "[shares an image: " ++ description img_info ++ "]"
          else message_content ++ " [shares an image: "
               ++ description img_info ++ "]"
      | None => message_content
      end in
    let message_key := author_name msg ++ ":" ++ message_content in
    if bool_decide (message_key ∈ seen_messages a) then
      mk_acc w (seen_messages a) (current_topic_messages a)
             (background_messages a)
    else
      let seen := {[message_key]} ∪ seen_messages a in
      let role := if author_is_bot msg then "assistant" else "user" in
      let formatted_content := author_name msg ++ ": " ++ message_content in
      let formatted_message := mk_entry role formatted_content in
      if (length (current_topic_messages a) <? 5)%nat then
        mk_acc w seen
               (current_topic_messages a ++ [(msg, formatted_message)])%list
               (background_messages a)
      else
        mk_acc w seen (current_topic_messages a)
               (background_messages a ++ [(msg, formatted_message)])%list.

Definition history_loop (image_history : gmap Z img_info)
    (current_message_id : option Z) (history : list message) (w : world)
    : acc :=
  foldl (process_message image_history current_message_id)
        (mk_acc w ∅ [] []) history.

(** The entries of the result, each with its message. *)
Definition kept (a : acc) : list (message * entry) :=
  rev (current_topic_messages a ++ background_messages a).

(** [fetch_recent_messages]: [history] is what
    [channel.history(limit=limit, oldest_first=False)] yields, [utcnow]
    the reading of [datetime.utcnow()] of the first clean-up pass.  The
    result comes with the caches as the call leaves them. *)
Definition fetch_recent_messages (history : list message)
    (current_message_id : option Z) (utcnow : Q) (w : world)
    (image_history : gmap Z img_info)
    : list entry * world * gmap Z img_info :=
  let a := history_loop image_history current_message_id history w in
  let image_history := purge_image_history utcnow image_history in
  let w := the_world a in
  let current_time := time_time (ticks w) in
  let w := mk_world (purge_url_cache current_time (url_cache w)) (S (ticks w)) in
  (map snd (kept a), w, image_history).

End Env.

(** The messages behind the two lists, in the order of the lists. *)
Definition survivors (a : acc) : list message :=
  map fst (current_topic_messages a ++ background_messages a)%list.

(** The first list takes five entries before the second takes any. *)
Definition topic_first (a : acc) : Prop :=
  (length (current_topic_messages a) <= 5)%nat
  /\ ((length (current_topic_messages a) < 5)%nat -> background_messages a = []).

(** Every entry has the role of its message and starts with its author. *)
Definition formatted (a : acc) : Prop :=
  forall m e, (m, e) ∈ (current_topic_messages a ++ background_messages a)%list ->
    role e = (if author_is_bot m then "assistant" else "user")
    /\ String.prefix (author_name m ++ ": ") (entry_content e) = true.

End Context.

(** ** The statistics store *)

Module Stats.

(** One user's entry of [user_stats.json]: the new format has
    ['servers'], the old one has the counters at top level ([flat]). *)
Record user_data : Type := mk_user_data {
  username : option string;
  servers : option (gmap string (gmap string Z));
  flat : gmap string Z
}.

Definition zero_bucket : gmap string Z :=
  <["images_generated" := 0]>
    (<["chat_responses" := 0]> {["mentions" := 0]}).

Inductive lock_event : Type := Acquire | Release | ReadFile | WriteFile.

(** The file (when it decodes), [user_stats_lock], and what has been
    done to them so far. *)
Record disk : Type := mk_disk {
  file : option (gmap string user_data);
  locked : bool;
  events : list lock_event
}.

Definition note (e : lock_event) (d : disk) : disk :=
  mk_disk (file d) (locked d) (events d ++ [e])%list.

(** [async with user_stats_lock]: [None] while another holder has the
    lock (the coroutine stays suspended). *)
Definition with_lock {A} (body : disk -> A * disk) (d : disk)
    : option (A * disk) :=
  if locked d then None
  else
    let d := note Acquire (mk_disk (file d) true (events d)) in
    let '(a, d) := body d in
    Some (a, note Release (mk_disk (file d) false (events d))).

(** The conversion of the old format. *)
Definition migrate (stats : user_data) : user_data :=
  mk_user_data
    (Some (default "Unknown" (username stats)))
    (Some {["global" :=
              <["images_generated" := default 0 (flat stats !! "images_generated")]>
                (<["chat_responses" := default 0 (flat stats !! "chat_responses")]>
                   {["mentions" := default 0 (flat stats !! "mentions")]}) ]})
    ∅.

Definition decode (data : gmap string user_data) : gmap string user_data :=
  if negb (bool_decide (data = ∅))
     && negb (existsb (fun '(_, user_data) =>
                         bool_decide (is_Some (servers user_data)))
                      (map_to_list data))
  then migrate <$> data
  else data.

Definition read_user_stats (d : disk)
    : option (gmap string user_data * disk) :=
  with_lock (fun d =>
    let d := note ReadFile d in
    match file d with
    | Some data => (decode data, d)
    | None => (∅, d)          (* the two [except] branches *)
    end) d.

(** The write is taken to go through; that it fails (the [except]
    branch logs the error and returns) is not modelled. *)
Definition write_user_stats (data : gmap string user_data) (d : disk)
    : option (unit * disk) :=
  with_lock (fun d =>
    let d := note WriteFile d in
    (tt, mk_disk (Some data) (locked d) (events d))) d.

(** [d[key]] *)
Definition item {V} (key : string) (d : gmap string V) : result V :=
  match d !! key with
  | Some v => Ok v
  | None => Raise (KeyError key)
  end.

(** [if server_id:] *)
Definition supplied (server_id : option Z) : option Z :=
  match server_id with
  | Some z => if z =? 0 then None else Some z
  | None => None
  end.

(** [d[stat] += 1] *)
Definition bump (stat : string) (d : gmap string Z) : result (gmap string Z) :=
  n ← item stat d;
  Ok (<[stat := n + 1]> d).

(** "Initialize user entry if it doesn't exist" *)
Definition init_user (str_user_id : string) (stats : gmap string user_data)
    : gmap string user_data :=
  match stats !! str_user_id with
  | Some _ => stats
  | None =>
      <[str_user_id :=
          mk_user_data (Some "Unknown") (Some {["global" := zero_bucket]}) ∅]>
        stats
  end.

(** "Update username if possible": [get_user] is the name that
    [bot.get_user(user_id)] knows, if any. *)
Definition set_username (get_user : option string) (u : user_data)
    : user_data :=
  match get_user with
  | Some name => mk_user_data (Some name) (servers u) (flat u)
  | None => u
  end.

(** "Initialize server stats if needed" *)
Definition init_server (server_id : option Z) (u : user_data) : user_data :=
  match supplied server_id with
  | Some z =>
      let str_server_id := pretty z in
      let srv := default ∅ (servers u) in
      let srv :=
        match srv !! str_server_id with
        | Some _ => srv
        | None => <[str_server_id := zero_bucket]> srv
        end in
      mk_user_data (username u) (Some srv) (flat u)
  | None => u
  end.

(** [if 'global' not in stats[str_user_id]['servers']: ...] *)
Definition init_global (srv : gmap string (gmap string Z))
    : gmap string (gmap string Z) :=
  match srv !! "global" with
  | Some _ => srv
  | None => <["global" := zero_bucket]> srv
  end.

(** "Increment global stat", "Increment server-specific stat if
    applicable" *)
Definition bump_buckets (stat : string) (server_id : option Z)
    (srv : gmap string (gmap string Z))
    : result (gmap string (gmap string Z)) :=
  g ← item "global" srv;
  g ← bump stat g;
  let srv := <["global" := g]> srv in
  match supplied server_id with
  | Some z =>
      let str_server_id := pretty z in
      b ← item str_server_id srv;
      b ← bump stat b;
      Ok (<[str_server_id := b]> srv)
  | None => Ok srv
  end.

(** The part of [increment_user_stat] between the read and the write. *)
Definition update (get_user : option string) (user_id : Z) (stat : string)
    (server_id : option Z) (stats : gmap string user_data)
    : result (gmap string user_data) :=
  let str_user_id := pretty user_id in
  let stats := init_user str_user_id stats in
  u ← item str_user_id stats;
  let u := set_username get_user u in
  let u := init_server server_id u in
  srv ← match servers u with
        | Some srv => Ok srv
        | None => Raise (KeyError "servers")
        end;
  let srv := init_global srv in
  srv ← bump_buckets stat server_id srv;
  Ok (<[str_user_id := mk_user_data (username u) (Some srv) (flat u)]> stats).

(** [increment_user_stat]: [None] when it stays suspended on the lock;
    otherwise how it ends, and the disk it leaves. *)
Definition increment_user_stat (get_user : option string) (user_id : Z)
    (stat : string) (server_id : option Z) (d : disk)
    : option (result unit * disk) :=
  match read_user_stats d with
  | None => None
  | Some (stats, d) =>
      match update get_user user_id stat server_id stats with
      | Raise e => Some (Raise e, d)
      | Ok stats =>
          match write_user_stats stats d with
          | None => None
          | Some (_, d) => Some (Ok tt, d)
          end
      end
  end.

(** The counter of [stat] in a bucket of a user, [0] when there is none. *)
Definition counter (stats : gmap string user_data) (user_id : Z)
    (bucket stat : string) : Z :=
  default 0
    (u ← stats !! pretty user_id;
     srv ← servers u;
     b ← srv !! bucket;
     b !! stat).

(** What [read_user_stats] makes of the file. *)
Definition stored (d : disk) : gmap string user_data :=
  match file d with
  | Some data => decode data
  | None => ∅
  end.

(** The three statistics that are kept. *)
Definition known (stat : string) : Prop :=
  stat ∈ ["images_generated"; "chat_responses"; "mentions"].

(** A bucket with the three counters. *)
Definition complete (b : gmap string Z) : Prop :=
  forall stat, known stat -> is_Some (b !! stat).

(** The new format: every user has ['servers'], and every bucket there
    has the three counters. *)
Definition well_formed (stats : gmap string user_data) : Prop :=
  forall uid u, stats !! uid = Some u ->
    exists srv, servers u = Some srv
                /\ forall k b, srv !! k = Some b -> complete b.

(** The lock is held from the read to the write: no [Release] comes
    between a [ReadFile] and the next [WriteFile]. *)
Fixpoint spans (reading : bool) (evs : list lock_event) : bool :=
  match evs with
  | [] => true
  | ReadFile :: evs => spans true evs
  | WriteFile :: evs => spans false evs
  | Release :: evs => negb reading && spans reading evs
  | Acquire :: evs => spans reading evs
  end.

(** The file is read and written only while the lock is held, and the
    lock is taken only when free and released only when held. *)
Fixpoint guarded (held : bool) (evs : list lock_event) : bool :=
  match evs with
  | [] => true
  | Acquire :: evs => negb held && guarded true evs
  | Release :: evs => held && guarded false evs
  | ReadFile :: evs | WriteFile :: evs => held && guarded held evs
  end.

(** What one call of [increment_user_stat] does to the lock and the file. *)
Definition one_call : list lock_event :=
  [Acquire; ReadFile; Release; Acquire; WriteFile; Release].

(** A call of [increment_user_stat]. *)
Record incr : Type := mk_incr {
  incr_get_user : option string;
  incr_user_id : Z;
  incr_stat : string;
  incr_server_id : option Z
}.

(** Calls made one after the other, each awaited before the next. *)
Fixpoint increments (calls : list incr) (d : disk) : option disk :=
  match calls with
  | [] => Some d
  | c :: calls =>
      match increment_user_stat (incr_get_user c) (incr_user_id c)
              (incr_stat c) (incr_server_id c) d with
      | Some (Ok _, d) => increments calls d
      | _ => None
      end
  end.

(** By how much a call raises a counter. *)
Definition raises (c : incr) (user_id : Z) (bucket stat : string) : Z :=
  if bool_decide (incr_user_id c = user_id)
     && bool_decide (incr_stat c = stat)
     && (bool_decide (bucket = "global")
         || match supplied (incr_server_id c) with
            | Some z => bool_decide (bucket = pretty z)
            | None => false
            end)
  then 1 else 0.

End Stats.

(** ** Text helpers of the chat path *)

Module Text.

(** A [str] is the list of its code points. *)
Definition space : N := 32%N.
Definition newline : N := 10%N.
Definition colon : N := 58%N.
Definition double_quote : N := 34%N.
Definition single_quote : N := 39%N.

(** The code points that [str.isspace] and [\s] take for whitespace
    (the table of CPython). *)
Definition Py_UNICODE_ISSPACE (c : N) : bool :=
  ((9 <=? c) && (c <=? 13) || (28 <=? c) && (c <=? 32)
   || (c =? 133) || (c =? 160) || (c =? 5760)
   || (8192 <=? c) && (c <=? 8202)
   || (c =? 8232) || (c =? 8233) || (c =? 8239) || (c =? 8287)
   || (c =? 12288))%N.

Section Space.

(** The whitespace test behind [str.strip()] and [\s]. *)
Variable isspace : N -> bool.

Fixpoint lstrip (s : list N) : list N :=
  match s with
  | [] => []
  | c :: s' => if isspace c then lstrip s' else s
  end.

Definition rstrip (s : list N) : list N := rev (lstrip (rev s)).

(** [s.strip()] *)
Definition strip (s : list N) : list N := rstrip (lstrip s).

(** A slice bound [i] of a sequence of length [len], as Python reads
    it: counted from the end when negative, clipped to the sequence. *)
Definition bound (len : nat) (i : Z) : nat :=
  if i <? 0 then Z.to_nat (Z.of_nat len + i) else Z.to_nat i.

(** [s[:i]] and [s[i:]] *)
Definition slice_to (s : list N) (i : Z) : list N :=
  take (bound (length s) i) s.
Definition slice_from (s : list N) (i : Z) : list N :=
  drop (bound (length s) i) s.

(** The highest index of [c] in [s], counted from [i]. *)
Fixpoint rfind_from (c : N) (i : nat) (s : list N) : option nat :=
  match s with
  | [] => None
  | x :: s' =>
      match rfind_from c (S i) s' with
      | Some j => Some j
      | None => if (x =? c)%N then Some i else None
      end
  end.

(** [s.rfind(c, 0, stop)] for a single character [c] *)
Definition rfind (c : N) (s : list N) (stop : Z) : Z :=
  match rfind_from c 0 (slice_to s stop) with
  | Some j => Z.of_nat j
  | None => -1
  end.

(** The [while len(msg) > max_len] loop of [split_message]; [None] when
    it has not ended after [fuel] rounds. *)
Fixpoint split_loop (fuel : nat) (max_len : Z) (msg : list N)
    (parts : list (list N)) : option (list (list N)) :=
  if max_len <? Z.of_nat (length msg) then
    match fuel with
    | O => None
    | S fuel =>
        let idx := rfind space msg max_len in
        let idx := if idx =? -1 then max_len else idx in
        split_loop fuel max_len (strip (slice_from msg idx))
                   (parts ++ [slice_to msg idx])%list
    end
  else Some (parts ++ [msg])%list.

Definition split_message (msg : list N) (max_len : Z)
    : option (list (list N)) :=
  split_loop (length msg) max_len msg [].

(** [text.startswith(q) and text.endswith(q)] for a single character *)
Definition wrapped (q : N) (text : list N) : bool :=
  match text, rev text with
  | first :: _, last :: _ => (first =? q)%N && (last =? q)%N
  | _, _ => false
  end.

(** [text[1:-1]] *)
Definition inner (text : list N) : list N := removelast (tl text).

(** The loop of [clean_response]; every round makes the text shorter,
    so its length bounds the number of rounds. *)
Fixpoint clean_loop (fuel : nat) (text : list N) : list N :=
  if wrapped double_quote text || wrapped single_quote text then
    match fuel with
    | O => text
    | S fuel => clean_loop fuel (strip (inner text))
    end
  else text.

Definition clean_response (text : list N) : list N :=
  let text := strip text in
  clean_loop (length text) text.

(** What follows the first colon of the first line, if it has one: the
    rest of the text after the match of [^.*?:]. *)
Fixpoint after_colon (text : list N) : option (list N) :=
  match text with
  | [] => None
  | c :: rest =>
      if (c =? colon)%N then Some rest
      else if (c =? newline)%N then None
      else after_colon rest
  end.

(** [remove_all_before_colon_pattern.sub("", text, count=1)] with the
    pattern [^.*?:\s*] *)
Definition remove_all_before_colon (text : list N) : list N :=
  match after_colon text with
  | Some rest => lstrip rest
  | None => text
  end.

(** The chunks that [on_message] hands to [message.channel.send], in
    order, for a reply of the language model. *)
Definition reply_chunks (reply : list N) : option (list (list N)) :=
  chunks ← split_message reply 1500;
  Some (map (fun chunk => clean_response (remove_all_before_colon chunk)) chunks).

End Space.

(** The text up to its first line break. *)
Fixpoint first_line (text : list N) : list N :=
  match text with
  | [] => []
  | c :: rest => if (c =? newline)%N then [] else c :: first_line rest
  end.

(** The text without what [strip] may remove. *)
Definition ink (isspace : N -> bool) (s : list N) : list N :=
  List.filter (fun c => negb (isspace c)) s.

End Text.

(** ** The uptime of the status command *)

Module Uptime.

(** [f"{n} {unit}{'s' if n != 1 else ''}"] *)
Definition counted (n : Z) (unit : string) : string :=
  pretty n ++ " " ++ unit ++ (if n =? 1 then "" else "s").

(** [format_uptime]: [total_seconds] is [int(td.total_seconds())];
    [divmod] is floor division with its remainder. *)
Definition format_uptime (total_seconds : Z) : string :=
  let days := total_seconds / 86400 in
  let remainder := total_seconds mod 86400 in
  let hours := remainder / 3600 in
  let remainder := remainder mod 3600 in
  let minutes := remainder / 60 in
  let parts :=
    ((if 0 <? days then [counted days "day"] else [])
     ++ (if 0 <? hours then [counted hours "hour"] else [])
     ++ (if 0 <? minutes then [counted minutes "minute"] else []))%list in
  match parts with
  | [] => "less than a minute"
  | _ => String.concat ", " parts
  end.

End Uptime.

(** ** Successive calls through the rate limiter *)

Module Cooldown.
Section Config.

Variable OWNER_IDS : list Z.
Variable MAX_INTERACTIONS_PER_MINUTE : Z.
Variable EXEMPT_ROLES : gset string.
Variable lower : string -> string.

(** The same user calls at the given times, one call after the other:
    the times of the calls that went through, and the table left. *)
Fixpoint calls (u : RateLimit.user) (times : list Q) (tbl : gmap Z (list Q))
    : list Q * gmap Z (list Q) :=
  match times with
  | [] => ([], tbl)
  | t :: times =>
      let '(v, tbl) :=
        RateLimit.universal_cooldown_check OWNER_IDS
          MAX_INTERACTIONS_PER_MINUTE EXEMPT_ROLES lower u t tbl in
      let '(through, tbl) := calls u times tbl in
      (match v with
       | RateLimit.Called => t :: through
       | RateLimit.Rejected _ => through
       end, tbl)
  end.

End Config.
End Cooldown.

(** ** What the loop of the context assembler keeps true *)

Module ContextInvariant.
Import Context.

(** The entries built so far, each with its message. *)
Definition pairs (a : acc) : list (message * entry) :=
  (current_topic_messages a ++ background_messages a)%list.

Record tidy (current_message_id : option Z) (history : list message)
    (a : acc) : Prop := {
  tidy_topic : topic_first a;
  tidy_from : forall m e, (m, e) ∈ pairs a ->
    m ∈ history /\ skipped current_message_id m = false;
  tidy_seen : forall m e, (m, e) ∈ pairs a ->
    exists message_content,
      entry_content e = author_name m ++ ": " ++ message_content
      /\ (author_name m ++ ":" ++ message_content) ∈ seen_messages a;
  tidy_nodup :
    NoDup (map (fun p : message * entry => (author_name p.1, entry_content p.2))
               (pairs a))
}.

End ContextInvariant.

(** ** What holds besides [Worker.invariant] *)

Module WorkerInvariant.
Import Worker.

(** Until a shutdown the counter is right, and the loop is left only
    after one. *)
Definition live_counted (s : state) : Prop :=
  (FluxQueue._shutdown (queue s) = false -> FluxQueue.counted (queue s))
  /\ (at_pc s = Exited -> FluxQueue._shutdown (queue s) = true).

End WorkerInvariant.

(** ** Dimensions of the images asked for *)

Module FluxCommand.

(** [size_value = size.value if size else 'default'] of the [/flux]
    command; [size] is the choice made, if any. *)
Definition size_value (size : option string) : string :=
  match size with
  | Some value => value
  | None => "default"
  end.

(** The dimensions that [process_flux_image] passes on for a size. *)
Definition dims (size : string) : Z * Z :=
  if String.eqb size "wide" then (1920, 1024)
  else if String.eqb size "tall" then (1024, 1920)
  else if String.eqb size "small" then (512, 512)
  else (1024, 1024).

End FluxCommand.

Module EditSubmit.
Section Parsing.

(** [str.strip], [int] of a string ([None]: [ValueError]) and
    [str.isdigit]. *)
Variable strip : string -> string.
Variable int : string -> option Z.
Variable isdigit : string -> bool.

(** The values of the four inputs of [EditImageModal]. *)
Record modal : Type := mk_modal {
  image_description : string;
  width_input : string;
  height_input : string;
  seed_input : string
}.

Definition updating : string := "🛠️ Updating parameters...".
Definition invalid : string := "❌ Width and Height must be valid integers.".
Definition failed : string := "❌ An error occurred while processing your edit.".

(** [EditImageModal.on_submit]: the queue it leaves and the messages it
    sends to the user.  [send_message] is how the first message ends,
    [randint] is what [random.randint(0, 2**32 - 1)] gives when asked. *)
Definition on_submit (interaction : Z) (m : modal)
    (send_message : Worker.outcome) (randint : Z)
    (q : FluxQueue.t Worker.item) : FluxQueue.t Worker.item * list string :=
  match send_message with
  | Worker.Raised _ => (q, [failed])
  | Worker.Returned =>
      let new_prompt := strip (image_description m) in
      match int (strip (width_input m)) with
      | None => (q, [updating; invalid])
      | Some original_width =>
          match int (strip (height_input m)) with
          | None => (q, [updating; invalid])
          | Some original_height =>
              let new_width :=
                EditImageModal.adjust_to_multiple_of_64 original_width in
              let new_height :=
                EditImageModal.adjust_to_multiple_of_64 original_height in
              let seed_value := strip (seed_input m) in
              let new_seed :=
                if isdigit seed_value then int seed_value else Some randint in
              match new_seed with
              | None => (q, [updating; failed])
              | Some new_seed =>
                  (FluxQueue.put
                     (Worker.button interaction Worker.edit (Some new_prompt)
                        new_width new_height (Some new_seed)) q,
                   [updating])
              end
          end
      end
  end.

End Parsing.
End EditSubmit.

(** ** The summary of a page in [extract_url_content] *)

Module UrlContent.

Definition dot : N := 46%N.

Section Space.

(** The whitespace test behind [str.split()]. *)
Variable isspace : N -> bool.

(** [content.split()]: the runs of code points that are not whitespace;
    [word] is the run being read. *)
Fixpoint split_go (word s : list N) : list (list N) :=
  match s with
  | [] => match word with [] => [] | _ => [word] end
  | c :: s =>
      if isspace c then
        match word with
        | [] => split_go [] s
        | _ => word :: split_go [] s
        end
      else split_go (word ++ [c]) s
  end.

Definition split (s : list N) : list (list N) := split_go [] s.

(** [' '.join(parts)] *)
Fixpoint join (parts : list (list N)) : list N :=
  match parts with
  | [] => []
  | word :: rest =>
      match rest with
      | [] => word
      | _ => word ++ Text.space :: join rest
      end
  end.

(** "Clean and limit content length": the text between
    ["[URL content: "] and ["]"]. *)
Definition summary (content : list N) : list N :=
  let content := join (split content) in
  if 500 <? Z.of_nat (length content)
  then (take 497 content ++ [dot; dot; dot])%list
  else content.

End Space.
End UrlContent.

(** ** Increments as tasks of the event loop *)

Module EventLoop.
Import Stats.

(** A call of [increment_user_stat] run as a task
    ([asyncio.create_task(increment_user_stat(...))], or inside the
    task of a handler).  A task gives up control only where an [await]
    has to wait; in [increment_user_stat] that is at the
    [async with user_stats_lock] of [read_user_stats] or of
    [write_user_stats], and only when the lock is held: taking a free
    [asyncio.Lock] does not suspend, and what is done under the lock
    (reading or writing the file) is not awaited. *)
Inductive task : Type :=
| AtRead (c : incr)
    (* not yet past the lock of [read_user_stats] *)
| AtWrite (c : incr) (stats : gmap string user_data)
    (* has [stats], changed, in hand; waits for the lock of [write_user_stats] *)
| Done (c : incr) (r : result unit).

(** From the [await write_user_stats(stats)] on. *)
Definition resume_write (c : incr) (stats : gmap string user_data) (d : disk)
    : task * disk :=
  match write_user_stats stats d with
  | None => (AtWrite c stats, d)
  | Some (_, d) => (Done c (Ok tt), d)
  end.

(** The loop resumes a task: the task runs until it has to wait or
    ends. *)
Definition resume (t : task) (d : disk) : task * disk :=
  match t with
  | AtRead c =>
      match read_user_stats d with
      | None => (AtRead c, d)
      | Some (stats, d) =>
          match update (incr_get_user c) (incr_user_id c) (incr_stat c)
                  (incr_server_id c) stats with
          | Raise e => (Done c (Raise e), d)
          | Ok stats => resume_write c stats d
          end
      end
  | AtWrite c stats => resume_write c stats d
  | Done c r => (Done c r, d)
  end.

(** One turn of the loop: the task numbered [i] is resumed (nothing
    happens when there is no such task). *)
Definition turn (st : list task * disk) (i : nat) : list task * disk :=
  match st.1 !! i with
  | Some t => let '(t', d) := resume t st.2 in (<[i := t']> st.1, d)
  | None => st
  end.

(** The loop resumes the tasks in the order that [schedule] gives, any
    number of times each. *)
Definition run (schedule : list nat) (st : list task * disk)
    : list task * disk :=
  foldl turn st schedule.

(** What a task has added to a counter when it is done. *)
Definition credit (user_id : Z) (bucket stat : string) (t : task) : Z :=
  match t with
  | Done c (Ok _) => raises c user_id bucket stat
  | _ => 0
  end.

End EventLoop.

(** * Properties *)

(** ** Dimension rounding *)

Section Rounding.
Import EditImageModal.

Lemma adjust_positive (value : Z) :
  0 < value -> adjust_to_multiple_of_64 value = 64 * ((value + 63) / 64).
Proof.
  intros Hpos. unfold adjust_to_multiple_of_64.
  destruct (Z.leb_spec value 0); lia.
Qed.

(** C9. A positive width or height becomes the least multiple of 64 that
    is not below it (so a multiple of 64 stays as it is); a value that is
    not positive becomes 64. *)
Theorem adjust_to_multiple_of_64_rounds_up (value : Z) :
  (0 < value ->
     (exists k, adjust_to_multiple_of_64 value = 64 * k)
     /\ value <= adjust_to_multiple_of_64 value < value + 64
     /\ (forall k, value <= 64 * k -> adjust_to_multiple_of_64 value <= 64 * k)
     /\ (value mod 64 = 0 -> adjust_to_multiple_of_64 value = value))
  /\ (value <= 0 -> adjust_to_multiple_of_64 value = 64).
Proof.
  split.
  - intros Hpos. rewrite (adjust_positive _ Hpos).
    pose proof (Z.div_mod (value + 63) 64 ltac:(lia)) as Hdm.
    pose proof (Z.mod_pos_bound (value + 63) 64 ltac:(lia)) as Hb.
    repeat split.
    + eexists; reflexivity.
    + lia.
    + lia.
    + intros k Hk.
      assert ((value + 63) / 64 < k + 1); [|lia].
      apply Z.div_lt_upper_bound; lia.
    + intros Hm.
      pose proof (Z.div_mod value 64 ltac:(lia)) as Hv.
      rewrite Hm in Hv.
      assert ((value + 63) / 64 = value / 64); [|lia].
      symmetry. apply (Z.div_unique (value + 63) 64 (value / 64) 63); lia.
  - intros Hle. unfold adjust_to_multiple_of_64.
    destruct (Z.leb_spec value 0); lia.
Qed.

Lemma adjust_to_multiple_of_64_rounds_up_witness :
  adjust_to_multiple_of_64 500 = 512
  /\ adjust_to_multiple_of_64 512 = 512
  /\ adjust_to_multiple_of_64 (-7) = 64.
Proof.
  split; [|split].
  - destruct (adjust_to_multiple_of_64_rounds_up 500) as [H _].
    destruct (H ltac:(lia)) as ([k Hk] & Hr & _).
    rewrite Hk in *. lia.
  - destruct (adjust_to_multiple_of_64_rounds_up 512) as [H _].
    destruct (H ltac:(lia)) as (_ & _ & _ & Hm).
    apply Hm. reflexivity.
  - destruct (adjust_to_multiple_of_64_rounds_up (-7)) as [_ H].
    apply H. lia.
Defined.

End Rounding.

(** ** The size counter of the queue *)

Section QueueSize.
Context {A : Type}.
Implicit Types (s : FluxQueue.t A) (q : AsyncQueue.t A).
Import AsyncQueue (accounted).
Import FluxQueue (counted).

Lemma counted_init : counted (FluxQueue.init (A:=A)).
Proof. reflexivity. Qed.

Lemma counted_put s (x : A) : counted s -> counted (FluxQueue.put x s).
Proof.
  unfold counted, FluxQueue.qsize, FluxQueue.held. cbn. intros ->.
  rewrite length_app. cbn. lia.
Qed.

Lemma counted_get s s' (x : A) :
  FluxQueue.get s = Some (x, s') -> counted s -> counted s'.
Proof.
  unfold counted, FluxQueue.qsize, FluxQueue.held, FluxQueue.get,
    AsyncQueue.get_nowait.
  destruct (AsyncQueue.items (FluxQueue._queue s)) as [|y l] eqn:E; [done|].
  intros [= <- <-]. cbn. intros ->. lia.
Qed.

Lemma accounted_put q (x : A) : accounted q -> accounted (AsyncQueue.put_nowait x q).
Proof. unfold accounted. cbn. rewrite length_app. cbn. lia. Qed.

Lemma drain_empties (fuel : nat) q :
  (length (AsyncQueue.items q) <= fuel)%nat -> accounted q ->
  exists q', FluxQueue.drain fuel q = Ok q'
             /\ AsyncQueue.items q' = []
             /\ accounted q'.
Proof.
  revert q. induction fuel as [|fuel IH]; intros [items n]; unfold accounted; cbn.
  - destruct items; cbn; [|lia]. intros _ _. eexists; split; [done|]. split; [done|]. cbn. lia.
  - destruct items as [|x items]; cbn.
    + intros _ _. eexists; split; [done|]. split; [done|]. cbn. lia.
    + intros Hlen Hacc. destruct n as [|n]; [lia|]. cbn.
      apply IH; unfold accounted; cbn; lia.
Qed.

Lemma initiate_shutdown_drains s :
  accounted (FluxQueue._queue s) ->
  exists s', FluxQueue.initiate_shutdown s = Ok s'
             /\ FluxQueue.held s' = []
             /\ FluxQueue.qsize s' = FluxQueue.qsize s
             /\ FluxQueue._shutdown s' = true
             /\ FluxQueue._processing s' = FluxQueue._processing s
             /\ accounted (FluxQueue._queue s').
Proof.
  intros Hacc. unfold FluxQueue.initiate_shutdown. cbn.
  destruct (drain_empties (length (AsyncQueue.items (FluxQueue._queue s)))
              (FluxQueue._queue s) ltac:(lia) Hacc) as (q' & -> & Hq' & Hacc').
  cbn. eexists; split; [done|]. by repeat split.
Qed.

Lemma initiate_shutdown_miscounts s :
  accounted (FluxQueue._queue s) -> counted s -> FluxQueue.held s <> [] ->
  exists s', FluxQueue.initiate_shutdown s = Ok s' /\ ~ counted s'.
Proof.
  intros Hacc Hc Hne.
  destruct (initiate_shutdown_drains s Hacc) as (s' & Hs' & Hheld & Hsize & _).
  exists s'. split; [done|]. unfold counted in *. rewrite Hheld, Hsize, Hc.
  destruct (FluxQueue.held s); [done|]. cbn. lia.
Qed.

(** C10. One job is put on a new queue and the queue is shut down: the
    FIFO is drained and holds nothing, yet [qsize()] still answers 1. *)
Theorem qsize_stale_after_shutdown (j : A) :
  exists s', FluxQueue.initiate_shutdown (FluxQueue.put j FluxQueue.init) = Ok s'
             /\ FluxQueue.held s' = []
             /\ FluxQueue.qsize s' = 1.
Proof. eexists. split; [reflexivity|]. split; reflexivity. Qed.

End QueueSize.

(** ** The worker: order of dispatch, one job at a time *)

Section WorkerLoop.
Import Worker.

Lemma enqueued_app t1 t2 : enqueued (t1 ++ t2) = (enqueued t1 ++ enqueued t2)%list.
Proof. apply omap_app. Qed.
Lemma dispatched_app t1 t2 :
  dispatched (t1 ++ t2) = (dispatched t1 ++ dispatched t2)%list.
Proof. apply omap_app. Qed.
Lemma removed_app t1 t2 : removed (t1 ++ t2) = (removed t1 ++ removed t2)%list.
Proof. apply omap_app. Qed.
Lemma finished_app t1 t2 : finished (t1 ++ t2) = (finished t1 ++ finished t2)%list.
Proof. apply omap_app. Qed.

Lemma in_flight_app t1 t2 : in_flight (t1 ++ t2) = in_flight t1 + in_flight t2.
Proof.
  unfold in_flight. rewrite dispatched_app, finished_app, !length_app. lia.
Qed.

Lemma readings_discard (l : list item) :
  enqueued (map Discard l) = [] /\ dispatched (map Discard l) = []
  /\ removed (map Discard l) = l /\ finished (map Discard l) = [].
Proof.
  induction l as [|x l (He & Hd & Hr & Hf)]; [done|].
  cbn. repeat split; try done. cbn in Hr. unfold removed in Hr. by rewrite Hr.
Qed.


Lemma invariant_init : invariant init.
Proof. split; cbn; try done. unfold AsyncQueue.accounted. cbn. lia. Qed.

Ltac proj :=
  cbn [queue trace at_pc errors FluxQueue._queue FluxQueue._processing
       FluxQueue._shutdown FluxQueue.current_size FluxQueue.set_processing
       FluxQueue.put FluxQueue.set_queue FluxQueue.set_current_size
       FluxQueue.held AsyncQueue.items AsyncQueue.unfinished_tasks
       AsyncQueue.put_nowait] in *.

Lemma invariant_worker_step o s s' :
  worker_step o s = Some s' -> invariant s -> invariant s'.
Proof.
  intros Hstep [Hfifo Hlive Hacc Hpc]. unfold worker_step in Hstep.
  destruct (at_pc s) eqn:Hat.
  - destruct (FluxQueue._shutdown (queue s)) eqn:Hsh;
      [|destruct (FluxQueue._processing (queue s)) eqn:Hpr];
      injection Hstep as <-; split; proj; try done;
      try (destruct Hpc; done || congruence); auto.
  - done.
  - unfold FluxQueue.get, AsyncQueue.get_nowait in Hstep.
    unfold FluxQueue.held in Hfifo.
    destruct (AsyncQueue.items (FluxQueue._queue (queue s))) as [|x l] eqn:E;
      [done|].
    injection Hstep as <-. split; proj.
    + rewrite removed_app, enqueued_app. cbn. rewrite app_nil_r, <- Hfifo.
      by rewrite <- app_assoc.
    + intros Hsh. rewrite removed_app, dispatched_app. cbn. by rewrite Hlive.
    + unfold AsyncQueue.accounted in *. rewrite E in Hacc. cbn in *. lia.
    + destruct Hpc as [Hp Hz]. split; [done|].
      rewrite in_flight_app, Hz. reflexivity.
  - injection Hstep as <-. split; proj.
    + by rewrite removed_app, enqueued_app, !app_nil_r.
    + intros Hsh. by rewrite removed_app, dispatched_app, !app_nil_r, Hlive.
    + done.
    + destruct Hpc as [Hp Hz]. split; [done|].
      rewrite in_flight_app, Hz. reflexivity.
  - done.
Qed.

Lemma invariant_env_step s s' : env_step s s' -> invariant s -> invariant s'.
Proof.
  intros Hstep [Hfifo Hlive Hacc Hpc]. destruct Hstep as [it s|s q' Hq'].
  - split; proj.
    + rewrite removed_app, enqueued_app. cbn. rewrite app_nil_r, <- Hfifo.
      by rewrite app_assoc.
    + intros Hsh. by rewrite removed_app, dispatched_app, Hlive.
    + by apply accounted_put.
    + assert (in_flight [Put it] = 0) as Hz by reflexivity.
      by rewrite in_flight_app, Hz, Z.add_0_r.
  - destruct (initiate_shutdown_drains (queue s) Hacc)
      as (q & Hq & Hheld & _ & Hsh & Hpr & Hacc').
    rewrite Hq in Hq'. injection Hq' as <-.
    destruct (readings_discard (FluxQueue.held (queue s)))
      as (He & Hd & Hr & Hf).
    split; proj.
    + by rewrite removed_app, enqueued_app, Hr, He, Hheld, !app_nil_r.
    + congruence.
    + done.
    + assert (in_flight (map Discard (FluxQueue.held (queue s))) = 0) as Hz
        by (unfold in_flight; by rewrite Hd, Hf).
      by rewrite in_flight_app, Hz, Z.add_0_r, Hpr.
Qed.

Lemma invariant_reachable s : reachable s -> invariant s.
Proof.
  unfold reachable. intros H. revert s H. apply rtc_ind_r.
  - apply invariant_init.
  - intros s0 s1 _ Hstep IH. destruct Hstep.
    + by eapply invariant_worker_step.
    + by eapply invariant_env_step.
Qed.

Lemma shutdown_never_raises s :
  reachable s -> exists q', FluxQueue.initiate_shutdown (queue s) = Ok q'.
Proof.
  intros Hr. destruct (invariant_reachable s Hr) as [_ _ Hacc _].
  destruct (initiate_shutdown_drains (queue s) Hacc) as (q' & Hq' & _).
  by exists q'.
Qed.




End WorkerLoop.
(** ** The worker: failures of single jobs *)

Section WorkerErrors.
Import Worker.

Lemma worker_step_finishes (o : outcome) (s : state) it c :
  at_pc s = Running it c ->
  exists s', worker_step o s = Some s'
    /\ at_pc s' = LoopTop
    /\ FluxQueue._processing (queue s') = false
    /\ FluxQueue._shutdown (queue s') = FluxQueue._shutdown (queue s)
    /\ FluxQueue.held (queue s') = FluxQueue.held (queue s)
    /\ errors s' = (errors s ++ error_lines [o])%list
    /\ trace s' = (trace s ++ [Finish it o])%list.
Proof.
  intros Hat. unfold worker_step. rewrite Hat. eexists. split; [done|].
  cbn. repeat split. destruct o; cbn; [by rewrite app_nil_r|done].
Qed.

Lemma run_drains (js : list item) : forall (os : list outcome) (fuel : nat) (s : state),
  length os = length js ->
  (3 * length js + 1 <= fuel)%nat ->
  at_pc s = LoopTop ->
  FluxQueue._shutdown (queue s) = false ->
  FluxQueue._processing (queue s) = false ->
  FluxQueue.held (queue s) = js ->
  let s' := run fuel os s in
  at_pc s' = Waiting
  /\ FluxQueue.held (queue s') = []
  /\ dispatched (trace s') = (dispatched (trace s) ++ js)%list
  /\ finished (trace s') = (finished (trace s) ++ zip js os)%list
  /\ enqueued (trace s') = enqueued (trace s)
  /\ errors s' = (errors s ++ error_lines os)%list.
Proof.
  induction js as [|j js IH]; intros os fuel [[[items n] pr sh cs] pc errs tr];
    cbn; intros Hlen Hfuel -> -> -> ->.
  - destruct os; [|done]. destruct fuel as [|fuel]; [lia|]. cbn.
    destruct fuel; cbn; by rewrite !app_nil_r.
  - destruct os as [|o os]; [done|].
    do 3 (destruct fuel as [|fuel]; [lia|]). cbn.
    edestruct (IH os fuel) as (H1 & H2 & H3 & H4 & H5 & H6);
      [by injection Hlen|lia|..]; cycle 4.
    + cbv zeta in H1, H2, H3, H4, H5, H6. rewrite H1, H2, H3, H4, H5, H6. cbn.
      rewrite !dispatched_app, !finished_app, !enqueued_app. cbn.
      rewrite !app_nil_r, <- !app_assoc. repeat split.
      destruct o; cbn; by rewrite ?app_nil_r, <- ?app_assoc.
    + done.
    + done.
    + done.
    + done.
Qed.

Ltac not_in_list :=
  let H := fresh in
  intros H; repeat (apply elem_of_cons in H as [H|H]; [discriminate H|]);
  by apply elem_of_nil in H.

Lemma non_200_handled (i : Flux.interaction) (status : Z) :
  status <> 200 ->
  (Flux.logged ("🖼️ Flux server error for " ++ Flux.user i ++ ": HTTP " ++ pretty status)
     ∈ Flux.generate_flux_image i (Flux.Responded status))
  /\ (Flux.image_sent ∉ Flux.generate_flux_image i (Flux.Responded status))
  /\ (forall text,
        Flux.sent text ∈ Flux.generate_flux_image i (Flux.Responded status) ->
        text = "❌ An unexpected error occurred during image generation: 'Webhook' object has no attribute 'is_done'")
  /\ (Flux.is_interaction i = true ->
      Flux.sent "❌ An unexpected error occurred during image generation: 'Webhook' object has no attribute 'is_done'"
        ∈ Flux.generate_flux_image i (Flux.Responded status))
  /\ (Flux.sent ("❌ Flux server error: HTTP " ++ pretty status)
        ∉ Flux.generate_flux_image i (Flux.Responded status)).
Proof.
  intros Hne.
  assert (Hsent : forall text,
            Flux.sent text ∈ Flux.generate_flux_image i (Flux.Responded status) ->
            text = "❌ An unexpected error occurred during image generation: 'Webhook' object has no attribute 'is_done'").
  { intros text. unfold Flux.generate_flux_image.
    destruct (Z.eqb_spec status 200) as [|_]; [done|].
    cbn [Flux.followup_is_done Flux.exn_text]. unfold Flux.on_unexpected, Flux.tell.
    intros H. apply elem_of_cons in H as [H|H]; [done|].
    apply elem_of_cons in H as [H|H]; [done|].
    destruct (Flux.is_interaction i); [|by apply elem_of_nil in H].
    apply elem_of_cons in H as [H|H]; [by injection H|].
    destruct (Flux.handler_send i); [by apply elem_of_nil in H|].
    by apply list_elem_of_singleton in H. }
  split; [|split; [|split; [done|split]]].
  - unfold Flux.generate_flux_image.
    destruct (Z.eqb_spec status 200) as [|_]; [done|]. apply list_elem_of_here.
  - unfold Flux.generate_flux_image.
    destruct (Z.eqb_spec status 200) as [|_]; [done|].
    cbn [Flux.followup_is_done Flux.exn_text]. unfold Flux.on_unexpected, Flux.tell.
    destruct (Flux.is_interaction i); destruct (Flux.handler_send i); not_in_list.
  - intros Hi. unfold Flux.generate_flux_image.
    destruct (Z.eqb_spec status 200) as [|_]; [done|].
    cbn [Flux.followup_is_done Flux.exn_text]. unfold Flux.on_unexpected, Flux.tell.
    rewrite Hi. do 2 apply list_elem_of_further. apply list_elem_of_here.
  - intros H. apply Hsent in H.
    cbv beta iota delta [String.append] in H. discriminate H.
Qed.

(** C8. An exception that leaves the handler of a job is caught by the
    worker loop and logged there; the flag is cleared, the job is not
    put back and the worker is at the head of its loop again.  Whatever
    way the handlers end, the worker dispatches every job held, once
    each and in order, and then waits for more.  An answer of the image
    service other than 200 raises nothing to the worker and is logged
    with its status code, but the status code is never reported to the
    requester: the test [interaction.followup.is_done()] raises
    [AttributeError] before the message is sent, and what the requester
    is sent, if anything, is the text of that error. *)
Theorem job_failure_contained :
  (forall (s : state) it c e,
     at_pc s = Running it c ->
     exists s', worker_step (Raised e) s = Some s'
       /\ at_pc s' = LoopTop
       /\ FluxQueue._processing (queue s') = false
       /\ FluxQueue._shutdown (queue s') = FluxQueue._shutdown (queue s)
       /\ FluxQueue.held (queue s') = FluxQueue.held (queue s)
       /\ errors s' = (errors s ++ [error_line e])%list)
  /\ (forall (js : list item) (os : list outcome) (fuel : nat) (s : state),
       length os = length js ->
       (3 * length js + 1 <= fuel)%nat ->
       at_pc s = LoopTop ->
       FluxQueue._shutdown (queue s) = false ->
       FluxQueue._processing (queue s) = false ->
       FluxQueue.held (queue s) = js ->
       at_pc (run fuel os s) = Waiting
       /\ FluxQueue.held (queue (run fuel os s)) = []
       /\ dispatched (trace (run fuel os s)) = (dispatched (trace s) ++ js)%list
       /\ finished (trace (run fuel os s)) = (finished (trace s) ++ zip js os)%list
       /\ enqueued (trace (run fuel os s)) = enqueued (trace s)
       /\ errors (run fuel os s) = (errors s ++ error_lines os)%list)
  /\ (forall (i : Flux.interaction) (status : Z),
       status <> 200 ->
       (Flux.logged ("🖼️ Flux server error for " ++ Flux.user i ++ ": HTTP "
                     ++ pretty status)
          ∈ Flux.generate_flux_image i (Flux.Responded status))
       /\ (Flux.image_sent ∉ Flux.generate_flux_image i (Flux.Responded status))
       /\ (forall text,
             Flux.sent text ∈ Flux.generate_flux_image i (Flux.Responded status) ->
             text = "❌ An unexpected error occurred during image generation: 'Webhook' object has no attribute 'is_done'")
       /\ (Flux.is_interaction i = true ->
           Flux.sent "❌ An unexpected error occurred during image generation: 'Webhook' object has no attribute 'is_done'"
             ∈ Flux.generate_flux_image i (Flux.Responded status))
       /\ (Flux.sent ("❌ Flux server error: HTTP " ++ pretty status)
             ∉ Flux.generate_flux_image i (Flux.Responded status))).
Proof.
  split; [|split].
  - intros s it c e Hat.
    destruct (worker_step_finishes (Raised e) s it c Hat)
      as (s' & H1 & H2 & H3 & H4 & H5 & H6 & _).
    exists s'. by repeat split.
  - intros js os fuel s Hlen Hfuel Hat Hsh Hpr Hheld.
    by apply run_drains.
  - apply non_200_handled.
Qed.

Lemma job_failure_contained_witness :
  let j1 := flux 1 "a cat" "default" None in
  let j2 := button 2 tall (Some "a dog") 1024 1920 (Some 7) in
  let s := mk (FluxQueue.put j2 (FluxQueue.put j1 FluxQueue.init)) LoopTop []
              [Put j1; Put j2] in
  let s' := run 7 [Raised "boom"; Returned] s in
  let i := Flux.mk_interaction "ann" true Returned Returned Returned in
  (at_pc s' = Waiting
   /\ dispatched (trace s') = [j1; j2]
   /\ finished (trace s') = [(j1, Raised "boom"); (j2, Returned)]
   /\ errors s' = ["Error processing queue item: boom"])
  /\ Flux.generate_flux_image i (Flux.Responded 503)
     = [Flux.logged "🖼️ Flux server error for ann: HTTP 503";
        Flux.logged "🖼️ Unexpected error during image generation for ann: 'Webhook' object has no attribute 'is_done'";
        Flux.sent "❌ An unexpected error occurred during image generation: 'Webhook' object has no attribute 'is_done'"]
  /\ (Flux.sent "❌ Flux server error: HTTP 503"
        ∉ Flux.generate_flux_image i (Flux.Responded 503)).
Proof.
  intros j1 j2 s s' i. destruct job_failure_contained as (_ & Hrun & Hflux).
  split; [|split].
  - destruct (Hrun [j1; j2] [Raised "boom"; Returned] 7%nat s)
      as (H1 & _ & H3 & H4 & _ & H6); try reflexivity.
    by repeat split.
  - reflexivity.
  - destruct (Hflux i 503 ltac:(lia)) as (_ & _ & _ & _ & Hnot).
    exact Hnot.
Defined.

End WorkerErrors.

(** ** The rate limiter *)

Lemma Qltb_lt (x y : Q) : Qltb x y = true <-> (x < y)%Q.
Proof.
  unfold Qltb. rewrite negb_true_iff, <- not_true_iff_false, Qle_bool_iff.
  split; [apply Qnot_le_lt | apply Qlt_not_le].
Qed.

Lemma Qltb_ge (x y : Q) : Qltb x y = false <-> (y <= x)%Q.
Proof.
  unfold Qltb. rewrite negb_false_iff. apply Qle_bool_iff.
Qed.

Section RateLimiter.
Import RateLimit.

Variable OWNER_IDS : list Z.
Variable MAX_INTERACTIONS_PER_MINUTE : Z.
Variable EXEMPT_ROLES : gset string.
Variable lower : string -> string.

#[local] Abbreviation cooldown :=
  (universal_cooldown_check OWNER_IDS MAX_INTERACTIONS_PER_MINUTE
     EXEMPT_ROLES lower).

Lemma has_exempt_role_iff (u : user) :
  has_exempt_role EXEMPT_ROLES lower u = true
  <-> exists rs r, roles u = Some rs /\ r ∈ rs /\ lower r ∈ EXEMPT_ROLES.
Proof.
  unfold has_exempt_role. destruct (roles u) as [rs|].
  - rewrite bool_decide_eq_true. split.
    + intros Hne. apply set_choose_L in Hne as [x Hx].
      apply elem_of_intersection in Hx as [Hx1 Hx2].
      apply elem_of_list_to_set, list_elem_of_fmap in Hx2 as (r & -> & Hr).
      by exists rs, r.
    + intros (rs' & r & [= <-] & Hr & Hex) Hempty.
      assert (lower r ∈ EXEMPT_ROLES ∩ list_to_set (C:=gset string) (lower <$> rs))
        as Hin.
      { apply elem_of_intersection. split; [done|].
        apply elem_of_list_to_set, list_elem_of_fmap. by exists r. }
      rewrite Hempty in Hin. by apply not_elem_of_empty in Hin.
  - split; [done|]. by intros (? & ? & ? & _).
Qed.

Lemma window_insert (tbl : gmap Z (list Q)) k l : window (<[k := l]> tbl) k = l.
Proof. unfold window. by rewrite lookup_insert_eq. Qed.

Lemma check_owner (u : user) (now : Q) (tbl : gmap Z (list Q)) :
  id u ∈ OWNER_IDS -> cooldown u now tbl = (Called, tbl).
Proof.
  intros Hin. unfold universal_cooldown_check. by rewrite bool_decide_eq_true_2.
Qed.

Lemma check_exempt (u : user) (now : Q) (tbl : gmap Z (list Q)) :
  id u ∉ OWNER_IDS ->
  has_exempt_role EXEMPT_ROLES lower u = true ->
  cooldown u now tbl
  = (Called, <[id u := (prune now (window tbl (id u)) ++ [now])%list]> tbl).
Proof.
  intros Hout Hex. unfold universal_cooldown_check.
  rewrite bool_decide_eq_false_2 by done. rewrite Hex. cbn.
  by rewrite window_insert, insert_insert_eq.
Qed.

Lemma check_plain (u : user) (now : Q) (tbl : gmap Z (list Q)) :
  id u ∉ OWNER_IDS ->
  has_exempt_role EXEMPT_ROLES lower u = false ->
  cooldown u now tbl
  = if MAX_INTERACTIONS_PER_MINUTE
         <=? Z.of_nat (length (prune now (window tbl (id u))))
    then (Rejected MAX_INTERACTIONS_PER_MINUTE,
          <[id u := prune now (window tbl (id u))]> tbl)
    else (Called,
          <[id u := (prune now (window tbl (id u)) ++ [now])%list]> tbl).
Proof.
  intros Hout Hex. unfold universal_cooldown_check.
  rewrite bool_decide_eq_false_2 by done. rewrite Hex. cbn.
  rewrite window_insert, insert_insert_eq. done.
Qed.


Lemma fold_Qmin_le (l : list Q) : forall x : Q,
  (fold_left Qmin l x <= x)%Q /\ forall y, y ∈ l -> (fold_left Qmin l x <= y)%Q.
Proof.
  induction l as [|a l IH]; intros x; cbn.
  - split; [apply Qle_refl|]. intros y Hy. by apply elem_of_nil in Hy.
  - destruct (IH (Qmin x a)) as [H1 H2]. split.
    + eapply Qle_trans; [exact H1|apply Q.le_min_l].
    + intros y Hy. apply elem_of_cons in Hy as [->|Hy]; [|by apply H2].
      eapply Qle_trans; [exact H1|apply Q.le_min_r].
Qed.

Lemma fold_Qmin_in (l : list Q) : forall x : Q, fold_left Qmin l x ∈ x :: l.
Proof.
  induction l as [|a l IH]; intros x; cbn; [apply list_elem_of_here|].
  specialize (IH (Qmin x a)).
  apply elem_of_cons in IH as [->|IH].
  - unfold Qmin, GenericMinMax.gmin. destruct (x ?= a)%Q.
    + apply list_elem_of_here.
    + apply list_elem_of_here.
    + apply list_elem_of_further, list_elem_of_here.
  - by do 2 apply list_elem_of_further.
Qed.

Lemma oldest_least (l : list Q) (m : Q) :
  oldest l = Some m -> m ∈ l /\ forall ts, ts ∈ l -> (m <= ts)%Q.
Proof.
  destruct l as [|x l]; [done|]. intros [= <-]. split; [apply fold_Qmin_in|].
  intros ts Hts. destruct (fold_Qmin_le l x) as [H1 H2].
  apply elem_of_cons in Hts as [->|Hts]; [done|by apply H2].
Qed.

Lemma prune_keeps (now : Q) (l : list Q) :
  (forall ts, ts ∈ l -> (now - ts < 60)%Q) -> prune now l = l.
Proof.
  induction l as [|a l IH]; intros H; [done|]. cbn.
  assert (Qltb (now - a) 60 = true) as ->.
  { apply Qltb_lt, H, list_elem_of_here. }
  f_equal. apply IH. intros ts Hts. by apply H, list_elem_of_further.
Qed.

Lemma prune_drops (now : Q) (l : list Q) (m : Q) :
  m ∈ l -> (60 <= now - m)%Q -> (length (prune now l) < length l)%nat.
Proof.
  induction l as [|a l IH]; intros Hm Hold; [by apply elem_of_nil in Hm|].
  pose proof (List.filter_length_le (fun ts => Qltb (now - ts) 60) l) as Hlen.
  cbn. apply elem_of_cons in Hm as [<-|Hm].
  - assert (Qltb (now - m) 60 = false) as -> by by apply Qltb_ge.
    unfold prune. lia.
  - specialize (IH Hm Hold). unfold prune in *.
    destruct (Qltb (now - a) 60); cbn; lia.
Qed.


(** C2 (amended). A designated owner is never rejected and the table of
    timestamps is left as it was.  A user who is not an owner and holds
    an exempt role is never rejected either, but the current time is
    recorded at the end of the pruned window. *)
Theorem owner_or_exempt_never_rejected (u : user) (now : Q)
    (tbl : gmap Z (list Q)) :
  (id u ∈ OWNER_IDS -> cooldown u now tbl = (Called, tbl))
  /\ (forall rs r,
        id u ∉ OWNER_IDS -> roles u = Some rs -> r ∈ rs ->
        lower r ∈ EXEMPT_ROLES ->
        cooldown u now tbl
        = (Called,
           <[id u := (prune now (window tbl (id u)) ++ [now])%list]> tbl)).
Proof.
  split; [apply check_owner|].
  intros rs r Hout Hrs Hr Hex. apply check_exempt; [done|].
  apply has_exempt_role_iff. by exists rs, r.
Qed.

(** C3. For a user who is neither an owner nor exempt, with [w] the
    window pruned to the timestamps less than 60 seconds old: below the
    limit the call goes through and the current time is recorded; at or
    over the limit it is rejected and nothing is recorded, and a later
    call is rejected again, the window unchanged, as long as the oldest
    timestamp of [w] is less than 60 seconds old; once that timestamp
    is 60 seconds old a window that was exactly at the limit lets the
    call through. *)
Theorem sliding_window_limit (u : user) (now : Q) (tbl : gmap Z (list Q)) :
  id u ∉ OWNER_IDS ->
  has_exempt_role EXEMPT_ROLES lower u = false ->
  let w := prune now (window tbl (id u)) in
  (forall ts, ts ∈ w <-> ts ∈ window tbl (id u) /\ (now - ts < 60)%Q)
  /\ (Z.of_nat (length w) < MAX_INTERACTIONS_PER_MINUTE ->
      cooldown u now tbl = (Called, <[id u := (w ++ [now])%list]> tbl))
  /\ (MAX_INTERACTIONS_PER_MINUTE <= Z.of_nat (length w) ->
      cooldown u now tbl
      = (Rejected MAX_INTERACTIONS_PER_MINUTE, <[id u := w]> tbl)
      /\ (forall now',
            (forall m, oldest w = Some m -> (now' - m < 60)%Q) ->
            cooldown u now' (<[id u := w]> tbl)
            = (Rejected MAX_INTERACTIONS_PER_MINUTE, <[id u := w]> tbl))
      /\ (forall now' m,
            oldest w = Some m -> (60 <= now' - m)%Q ->
            Z.of_nat (length w) = MAX_INTERACTIONS_PER_MINUTE ->
            (cooldown u now' (<[id u := w]> tbl)).1 = Called)).
Proof.
  intros Hout Hex w. split; [|split].
  - intros ts. unfold w, prune. rewrite !list_elem_of_In, filter_In.
    by rewrite Qltb_lt.
  - intros Hlt. rewrite check_plain by done. fold w.
    destruct (Z.leb_spec MAX_INTERACTIONS_PER_MINUTE (Z.of_nat (length w)));
      [lia|done].
  - intros Hge. split; [|split].
    + rewrite check_plain by done. fold w.
      destruct (Z.leb_spec MAX_INTERACTIONS_PER_MINUTE (Z.of_nat (length w)));
        [done|lia].
    + intros now' Hyoung. rewrite check_plain by done.
      rewrite window_insert, insert_insert_eq.
      assert (prune now' w = w) as ->.
      { apply prune_keeps. intros ts Hts.
        destruct (oldest w) as [m|] eqn:Hm.
        - destruct (oldest_least w m Hm) as [_ Hleast].
          specialize (Hleast ts Hts). specialize (Hyoung m eq_refl).
          apply Qltb_lt. apply Qltb_lt in Hyoung. unfold Qltb in *.
          apply negb_true_iff, not_true_iff_false. rewrite Qle_bool_iff.
          apply negb_true_iff, not_true_iff_false in Hyoung.
          rewrite Qle_bool_iff in Hyoung. lra.
        - destruct w; [by apply elem_of_nil in Hts|done]. }
      destruct (Z.leb_spec MAX_INTERACTIONS_PER_MINUTE (Z.of_nat (length w)));
        [done|lia].
    + intros now' m Hm Hold Hfull. rewrite check_plain by done.
      rewrite window_insert, insert_insert_eq.
      destruct (oldest_least w m Hm) as [Hin _].
      pose proof (prune_drops now' w m Hin Hold).
      destruct (Z.leb_spec MAX_INTERACTIONS_PER_MINUTE
                  (Z.of_nat (length (prune now' w)))); [lia|done].
Qed.

End RateLimiter.

Lemma owner_or_exempt_never_rejected_witness :
  RateLimit.universal_cooldown_check [1] 4 {["vip"]} (fun s => s)
    (RateLimit.mk_user 1 None) 100 {[1 := [99%Q]]}
  = (RateLimit.Called, {[1 := [99%Q]]})
  /\ (RateLimit.universal_cooldown_check [1] 4 {["vip"]} (fun s => s)
        (RateLimit.mk_user 7 (Some ["vip"])) 100 ∅).1
     = RateLimit.Called.
Proof.
  split.
  - apply (owner_or_exempt_never_rejected [1] 4 {["vip"]} (fun s => s)).
    cbn. apply list_elem_of_here.
  - destruct (owner_or_exempt_never_rejected [1] 4 {["vip"]} (fun s => s)
                (RateLimit.mk_user 7 (Some ["vip"])) 100 ∅) as [_ H].
    rewrite (H ["vip"] "vip"); [reflexivity|..].
    + cbn. intros Hin. apply elem_of_cons in Hin as [Hin|Hin]; [done|].
      by apply elem_of_nil in Hin.
    + reflexivity.
    + apply list_elem_of_here.
    + by apply elem_of_singleton.
Defined.

(** C2, as stated, fails: a member who holds the exempt role [vip] and
    is no owner makes a call at time 100; the call goes through and 100
    is recorded in the member's window. *)
Lemma exempt_role_is_recorded :
  let u := RateLimit.mk_user 7 (Some ["vip"]) in
  RateLimit.has_exempt_role {["vip"]} (fun s => s) u = true
  /\ (RateLimit.universal_cooldown_check [1] 4 {["vip"]} (fun s => s) u 100 ∅).1
     = RateLimit.Called
  /\ RateLimit.window
       (RateLimit.universal_cooldown_check [1] 4 {["vip"]} (fun s => s) u 100 ∅).2 7
     = [100%Q].
Proof. vm_compute. by repeat split. Qed.

Lemma sliding_window_limit_witness :
  let u := RateLimit.mk_user 7 None in
  let tbl : gmap Z (list Q) := {[7 := [30; 95; 96; 97; 98]%Q]} in
  RateLimit.universal_cooldown_check [1] 4 ∅ (fun s => s) u 100 tbl
  = (RateLimit.Rejected 4, <[7 := [95; 96; 97; 98]%Q]> tbl)
  /\ RateLimit.universal_cooldown_check [1] 4 ∅ (fun s => s) u 154
       (<[7 := [95; 96; 97; 98]%Q]> tbl)
     = (RateLimit.Rejected 4, <[7 := [95; 96; 97; 98]%Q]> tbl)
  /\ (RateLimit.universal_cooldown_check [1] 4 ∅ (fun s => s) u 155
        (<[7 := [95; 96; 97; 98]%Q]> tbl)).1
     = RateLimit.Called.
Proof.
  intros u tbl.
  assert (Hout : RateLimit.id u ∉ [1]).
  { cbn. intros Hin. apply elem_of_cons in Hin as [Hin|Hin]; [done|].
    by apply elem_of_nil in Hin. }
  destruct (sliding_window_limit [1] 4 ∅ (fun s => s) u 100 tbl Hout eq_refl)
    as (_ & _ & Hfull).
  destruct (Hfull ltac:(vm_compute; discriminate)) as (Hrej & Hstay & Hfree).
  split; [exact Hrej|]. split.
  - apply (Hstay 154%Q). intros m [= <-]. reflexivity.
  - apply (Hfree 155%Q 95%Q); [reflexivity|vm_compute; discriminate|reflexivity].
Defined.

(** ** The caches *)

Section Caches.
Import Context.

Lemma lookup_foldl_delete `{Countable K} {V} (ks : list K) : forall (m : gmap K V) (k : K),
  foldl (fun h k' => delete k' h) m ks !! k
  = if decide (k ∈ ks) then None else m !! k.
Proof.
  induction ks as [|k' ks IH]; intros m k; cbn.
  - destruct (decide (k ∈ [])) as [Hin|_]; [by apply elem_of_nil in Hin|done].
  - rewrite IH. destruct (decide (k ∈ ks)) as [Hin|Hout].
    + rewrite decide_True; [done|by apply list_elem_of_further].
    + destruct (decide (k = k')) as [->|Hne].
      * rewrite lookup_delete_eq, decide_True; [done|apply list_elem_of_here].
      * rewrite lookup_delete_ne by done.
        rewrite decide_False; [done|].
        intros Hin. apply elem_of_cons in Hin as [?|?]; done.
Qed.

Lemma elem_of_expired_urls (now : Q) (cache : gmap string (option string * Q))
    (url : string) :
  url ∈ expired_urls now cache
  <-> exists c t0, cache !! url = Some (c, t0) /\ (URL_CACHE_TTL < now - t0)%Q.
Proof.
  unfold expired_urls. rewrite list_elem_of_omap. split.
  - intros ([k [c t0]] & Hin & Hsome). apply elem_of_map_to_list in Hin.
    destruct (Qltb URL_CACHE_TTL (now - t0)) eqn:E; [|done].
    injection Hsome as ->. exists c, t0. split; [done|by apply Qltb_lt].
  - intros (c & t0 & Hl & Hlt). exists (url, (c, t0)). split.
    + by apply elem_of_map_to_list.
    + apply Qltb_lt in Hlt. by rewrite Hlt.
Qed.

Lemma elem_of_old_messages (now : Q) (h : gmap Z img_info) (msg_id : Z) :
  msg_id ∈ old_messages now h
  <-> exists info, h !! msg_id = Some info /\ (3600 < now - timestamp info)%Q.
Proof.
  unfold old_messages. rewrite list_elem_of_omap. split.
  - intros ([k info] & Hin & Hsome). apply elem_of_map_to_list in Hin.
    destruct (Qltb 3600 (now - timestamp info)) eqn:E; [|done].
    injection Hsome as ->. exists info. split; [done|by apply Qltb_lt].
  - intros (info & Hl & Hlt). exists (msg_id, info). split.
    + by apply elem_of_map_to_list.
    + apply Qltb_lt in Hlt. by rewrite Hlt.
Qed.

Lemma purge_url_cache_lookup (now : Q) (cache : gmap string (option string * Q))
    (url : string) (e : option string * Q) :
  purge_url_cache now cache !! url = Some e
  <-> cache !! url = Some e /\ ~ (URL_CACHE_TTL < now - e.2)%Q.
Proof.
  unfold purge_url_cache. rewrite lookup_foldl_delete.
  destruct (decide (url ∈ expired_urls now cache)) as [Hin|Hout].
  - apply elem_of_expired_urls in Hin as (c & t0 & Hl & Hlt).
    split; [done|]. intros [He Hn]. rewrite Hl in He. injection He as <-. done.
  - split.
    + intros Hl. split; [done|]. intros Hlt. apply Hout.
      apply elem_of_expired_urls. destruct e as [c t0]. by exists c, t0.
    + by intros [Hl _].
Qed.

Lemma purge_image_history_lookup (now : Q) (h : gmap Z img_info)
    (msg_id : Z) (info : img_info) :
  purge_image_history now h !! msg_id = Some info
  <-> h !! msg_id = Some info /\ ~ (3600 < now - timestamp info)%Q.
Proof.
  unfold purge_image_history. rewrite lookup_foldl_delete.
  destruct (decide (msg_id ∈ old_messages now h)) as [Hin|Hout].
  - apply elem_of_old_messages in Hin as (info' & Hl & Hlt).
    split; [done|]. intros [He Hn]. rewrite Hl in He. injection He as <-. done.
  - split.
    + intros Hl. split; [done|]. intros Hlt. apply Hout.
      apply elem_of_old_messages. by exists info.
    + by intros [Hl _].
Qed.

(** C4 (amended). The URL cache: a lookup of a key put less than 3600
    seconds before returns the stored value; a lookup of an entry that
    is 3600 seconds old or more is a miss; the purge keeps an entry
    exactly when it is not more than 3600 seconds old.  The image
    descriptions: a lookup returns what was put for the key, whatever
    its age; the purge keeps an entry exactly when it is not more than
    3600 seconds old. *)
Theorem caches_expire :
  (forall cache url c t0 now,
     (now - t0 < 3600)%Q ->
     url_cache_get (url_cache_put url c t0 cache) url now = Some c)
  /\ (forall cache url c t0 now,
       cache !! url = Some (c, t0) -> (3600 <= now - t0)%Q ->
       url_cache_get cache url now = None)
  /\ (forall cache now url e,
       purge_url_cache now cache !! url = Some e
       <-> cache !! url = Some e /\ ~ (3600 < now - e.2)%Q)
  /\ (forall h msg_id d a t0 ch,
       image_history_get (image_history_put msg_id d a t0 ch h) msg_id
       = Some (mk_img d a t0 ch))
  /\ (forall h now msg_id info,
       purge_image_history now h !! msg_id = Some info
       <-> h !! msg_id = Some info /\ ~ (3600 < now - timestamp info)%Q).
Proof.
  repeat apply conj.
  - intros cache url c t0 now Hlt. unfold url_cache_get, url_cache_put.
    rewrite lookup_insert_eq.
    assert (Qltb (now - t0) URL_CACHE_TTL = true) as -> by by apply Qltb_lt.
    done.
  - intros cache url c t0 now Hl Hge. unfold url_cache_get. rewrite Hl.
    assert (Qltb (now - t0) URL_CACHE_TTL = false) as -> by by apply Qltb_ge.
    done.
  - intros. apply purge_url_cache_lookup.
  - intros. unfold image_history_get, image_history_put.
    apply lookup_insert_eq.
  - intros. apply purge_image_history_lookup.
Qed.

Lemma caches_expire_witness :
  let cache := url_cache_put "http://a.example" (Some "A") 0 ∅ in
  url_cache_get cache "http://a.example" 3599 = Some (Some "A")
  /\ url_cache_get cache "http://a.example" 3600 = None
  /\ purge_url_cache 3600 cache !! "http://a.example" = Some (Some "A", 0%Q)
  /\ purge_url_cache 3601 cache !! "http://a.example" = None.
Proof.
  intros cache. destruct caches_expire as (Hhit & Hmiss & Hpurge & _).
  split; [|split; [|split]].
  - apply Hhit. reflexivity.
  - apply (Hmiss cache _ (Some "A") 0%Q); [reflexivity|].
    vm_compute. discriminate.
  - apply Hpurge. split; [reflexivity|]. vm_compute. discriminate.
  - destruct (purge_url_cache 3601 cache !! "http://a.example") as [e|] eqn:E;
      [|reflexivity].
    apply Hpurge in E as [E Hyoung]. injection E as <-.
    exfalso. apply Hyoung. reflexivity.
Defined.

(** C4, as stated, fails for the image descriptions: a description
    stored at time 0 is looked up while the context is assembled at
    time 4000, 400 seconds past the lifetime; it is not treated as
    missing but goes into the context (and only the clean-up pass at the
    end of that call removes it). *)
Lemma stale_image_description_is_used :
  let image_history := image_history_put 5 "a cat" "ann" 0 9 ∅ in
  let msg := mk_message 5 0 "ann" false "look" in
  let is_blank := fun s => String.eqb s "" in
  image_history_get image_history 5 = Some (mk_img "a cat" "ann" 0 9)
  /\ fetch_recent_messages (fun _ => 4000%Q) (fun _ _ => None) (fun _ => [])
       is_blank [msg] None 4000 (mk_world ∅ 0) image_history
     = ([mk_entry "user" "ann: look [shares an image: a cat]"], mk_world ∅ 1, ∅).
Proof. split; [reflexivity|]. vm_compute. reflexivity. Qed.

End Caches.

(** ** The context assembler *)

Section Assembler.
Import Context.

Variable time_time : nat -> Q.
Variable extract_url_content : nat -> string -> option string.
Variable extract_urls : string -> list string.
Variable is_blank : string -> bool.

#[local] Abbreviation body :=
  (process_message time_time extract_url_content extract_urls is_blank).
#[local] Abbreviation loop :=
  (history_loop time_time extract_url_content extract_urls is_blank).

Lemma prefix_append (p s : string) : String.prefix p (p ++ s) = true.
Proof.
  induction p as [|c p IH]; [by destruct s|].
  change (String.prefix (String c p) (String c (p ++ s)) = true). cbn.
  destruct (Ascii.ascii_dec c c); [done|congruence].
Qed.

Lemma prefix_append_2 (p q s : string) :
  String.prefix (p ++ q) (p ++ q ++ s) = true.
Proof.
  induction p as [|c p IH]; [exact (prefix_append q s)|].
  change (String.prefix (String c (p ++ q)) (String c (p ++ q ++ s)) = true).
  cbn. destruct (Ascii.ascii_dec c c); [done|congruence].
Qed.

Lemma process_message_step image_history current_message_id (a : acc)
    (msg : message) :
  topic_first a -> formatted a ->
  let a' := body image_history current_message_id a msg in
  topic_first a' /\ formatted a'
  /\ (survivors a' = survivors a \/ survivors a' = (survivors a ++ [msg])%list).
Proof.
  intros Htf Hfmt. pose proof Htf as [Hle Hbg]. unfold process_message.
  destruct (skipped current_message_id msg); [by auto|].
  destruct (process_urls _ _ _ _ _) as [w url_contents].
  match goal with |- context [bool_decide (?k ∈ _)] => set (key := k) end.
  destruct (bool_decide (key ∈ seen_messages a)); [by auto|].
  match goal with |- context [mk_entry ?r ?c] => set (e := mk_entry r c) end.
  assert (He : role e = (if author_is_bot msg then "assistant" else "user")
               /\ String.prefix (author_name msg ++ ": ") (entry_content e) = true).
  { split; [done|]. unfold e. cbn [entry_content].
    apply prefix_append_2. }
  destruct (Nat.ltb_spec (length (current_topic_messages a)) 5) as [Hlt|Hge];
    cbv zeta; unfold topic_first, formatted, survivors; cbn.
  - rewrite (Hbg Hlt), !app_nil_r, length_app. cbn.
    split; [split; [lia|done]|]. split.
    + intros m e' Hin. apply elem_of_app in Hin as [Hin|Hin].
      * apply Hfmt. by rewrite (Hbg Hlt), app_nil_r.
      * apply list_elem_of_singleton in Hin as [= -> ->]. done.
    + right. by rewrite map_app.
  - split; [split; [lia|lia]|]. split.
    + intros m e' Hin. rewrite app_assoc in Hin.
      apply elem_of_app in Hin as [Hin|Hin]; [by apply Hfmt|].
      apply list_elem_of_singleton in Hin as [= -> ->]. done.
    + right. by rewrite app_assoc, map_app.
Qed.

Lemma foldl_process_message image_history current_message_id
    (history : list message) : forall a : acc,
  topic_first a -> formatted a ->
  let a' := foldl (body image_history current_message_id) a history in
  topic_first a' /\ formatted a'
  /\ exists l, l `sublist_of` history /\ survivors a' = (survivors a ++ l)%list.
Proof.
  induction history as [|msg history IH]; intros a Htf Hfmt; cbn.
  - split; [done|]. split; [done|]. exists []. by rewrite app_nil_r.
  - destruct (process_message_step image_history current_message_id a msg Htf Hfmt)
      as (Htf' & Hfmt' & Hsurv).
    destruct (IH _ Htf' Hfmt') as (Htf'' & Hfmt'' & l & Hl & Heq).
    split; [done|]. split; [done|].
    destruct Hsurv as [Hs|Hs]; rewrite Hs in Heq.
    + exists l. split; [by apply sublist_cons|done].
    + exists (msg :: l). split; [by apply sublist_skip|].
      by rewrite Heq, <- app_assoc.
Qed.

Lemma StronglySorted_sublist {A} (R : relation A) (l1 l2 : list A) :
  l1 `sublist_of` l2 -> StronglySorted R l2 -> StronglySorted R l1.
Proof.
  induction 1 as [|x l1 l2 Hsub IH|x l1 l2 Hsub IH]; [done|..];
    rewrite !StronglySorted_cons; intros [Hall Hs].
  - split; [|by apply IH]. rewrite Forall_forall in *.
    intros y Hy. apply Hall. by eapply elem_of_sublist.
  - by apply IH.
Qed.

Lemma StronglySorted_rev {A} (R : relation A) (l : list A) :
  StronglySorted R l -> StronglySorted (flip R) (rev l).
Proof.
  induction l as [|x l IH]; [constructor|].
  rewrite StronglySorted_cons. intros [Hall Hs]. cbn.
  apply StronglySorted_app. split; [|split].
  - intros x1 x2 Hx1 Hx2. apply list_elem_of_singleton in Hx2 as ->.
    apply list_elem_of_In, in_rev, list_elem_of_In in Hx1.
    rewrite Forall_forall in Hall. by apply Hall.
  - by apply IH.
  - repeat constructor.
Qed.


Lemma sublist_rev {A} (l1 l2 : list A) :
  l1 `sublist_of` l2 -> rev l1 `sublist_of` rev l2.
Proof.
  induction 1 as [|x l1 l2 Hsub IH|x l1 l2 Hsub IH]; cbn; [done|..].
  - by apply sublist_app.
  - by apply sublist_inserts_r.
Qed.

(** C5. The result of [fetch_recent_messages] lists entries made from
    messages of the fetched window (each with the role and the author of
    its message), the first list of the loop takes five of them before
    the second takes any, and the messages behind the result are in the
    order opposite to the one they were fetched in: fetched newest
    first, the result is strictly chronological, oldest first. *)
Theorem context_is_chronological (history : list message)
    (current_message_id : option Z) (utcnow : Q) (w : world)
    (image_history : gmap Z img_info) :
  let a := loop image_history current_message_id history w in
  (fetch_recent_messages time_time extract_url_content extract_urls is_blank
     history current_message_id utcnow w image_history).1.1
  = map snd (kept a)
  /\ ((length (current_topic_messages a) <= 5)%nat
      /\ (background_messages a <> [] ->
          length (current_topic_messages a) = 5%nat))
  /\ map fst (kept a) `sublist_of` rev history
  /\ (forall m e, (m, e) ∈ kept a ->
        role e = (if author_is_bot m then "assistant" else "user")
        /\ String.prefix (author_name m ++ ": ") (entry_content e) = true)
  /\ (newest_first history -> chronological (map fst (kept a))).
Proof.
  intros a.
  destruct (foldl_process_message image_history current_message_id history
              (mk_acc w ∅ [] [])) as ([Hle Hbg] & Hfmt & l & Hl & Hsurv).
  { split; [cbn; lia|done]. }
  { intros m e Hin. by apply elem_of_nil in Hin. }
  fold (loop image_history current_message_id history w) in Hle, Hbg, Hfmt, Hsurv.
  fold a in Hle, Hbg, Hfmt, Hsurv. cbn in Hsurv.
  assert (Hkept : map fst (kept a) = rev l).
  { unfold kept. rewrite map_rev. unfold survivors in Hsurv. by rewrite Hsurv. }
  split; [done|]. split; [|split; [|split]].
  - split; [done|]. intros Hne.
    destruct (Nat.lt_ge_cases (length (current_topic_messages a)) 5) as [Hlt|Hge];
      [by specialize (Hbg Hlt)|lia].
  - rewrite Hkept. by apply sublist_rev.
  - intros m e Hin. apply Hfmt. unfold kept in Hin.
    by apply list_elem_of_In, in_rev, list_elem_of_In in Hin.
  - intros Hnew. rewrite Hkept. unfold chronological, newest_first in *.
    apply (StronglySorted_rev _ l), (StronglySorted_sublist _ l history Hl Hnew).
Qed.

End Assembler.

Lemma context_is_chronological_witness :
  let m1 := Context.mk_message 11 30 "ann" false "third" in
  let m2 := Context.mk_message 10 20 "soupy" true "second" in
  let m3 := Context.mk_message 9 10 "bob" false "!flux first" in
  let m4 := Context.mk_message 8 5 "bob" false "zeroth" in
  let a := Context.history_loop (fun _ => 100%Q) (fun _ _ => None)
             (fun _ => []) (fun s => String.eqb s "") ∅ None [m1; m2; m3; m4]
             (Context.mk_world ∅ 0) in
  map fst (Context.kept a) = [m4; m2; m1]
  /\ map snd (Context.kept a)
     = [Context.mk_entry "user" "bob: zeroth";
        Context.mk_entry "assistant" "soupy: second";
        Context.mk_entry "user" "ann: third"]
  /\ Context.chronological (map fst (Context.kept a)).
Proof.
  intros m1 m2 m3 m4 a.
  destruct (context_is_chronological (fun _ => 100%Q) (fun _ _ => None)
              (fun _ => []) (fun s => String.eqb s "") [m1; m2; m3; m4] None 100
              (Context.mk_world ∅ 0) ∅) as (_ & _ & _ & _ & Hchron).
  split; [reflexivity|]. split; [reflexivity|].
  apply Hchron. unfold Context.newest_first.
  repeat (apply StronglySorted_cons; split; [repeat constructor|]).
  constructor.
Defined.

(** ** The statistics store *)

Section Statistics.
Import Stats.

#[local] Abbreviation count srv b st :=
  (default 0 (srv !! b ≫= fun bk : gmap string Z => bk !! st)).

Lemma pretty_N_go_ne_global (x : N) : forall s : string,
  s <> "global" -> pretty_N_go x s <> "global".
Proof.
  induction (N.lt_wf_0 x) as [x _ IH]. intros s Hs.
  destruct (decide (x = 0%N)) as [->|Hx].
  - by rewrite pretty_N_go_0.
  - rewrite pretty_N_go_step by lia. apply IH.
    + apply N.div_lt; lia.
    + unfold pretty_N_char. by repeat case_match.
Qed.

Lemma pretty_Z_ne_global (z : Z) : pretty z <> "global".
Proof.
  destruct z as [|p|p]; [done| |done].
  unfold pretty, pretty_Z, pretty, pretty_positive, pretty, pretty_N.
  rewrite decide_False by done. by apply pretty_N_go_ne_global.
Qed.

Lemma zero_bucket_count (st : string) : default 0 (zero_bucket !! st) = 0.
Proof.
  destruct (zero_bucket !! st) as [n|] eqn:E; [|done]. unfold zero_bucket in E.
  repeat (apply lookup_insert_Some in E as [[_ <-]|[_ E]]; [done|]).
  by apply lookup_singleton_Some in E as [_ <-].
Qed.

Lemma zero_bucket_complete : complete zero_bucket.
Proof.
  unfold complete, known. intros stat H.
  repeat (apply elem_of_cons in H as [->|H]; [by eexists|]).
  by apply elem_of_nil in H.
Qed.

Lemma count_ensure (k : string) (srv : gmap string (gmap string Z)) b st :
  count (match srv !! k with
         | Some _ => srv
         | None => <[k := zero_bucket]> srv
         end) b st
  = count srv b st.
Proof.
  destruct (srv !! k) eqn:E; [done|].
  destruct (decide (k = b)) as [<-|Hne].
  - rewrite lookup_insert_eq, E. cbn. apply zero_bucket_count.
  - by rewrite lookup_insert_ne.
Qed.

Lemma bump_spec (stat : string) (g : gmap string Z) :
  known stat -> complete g ->
  exists g', bump stat g = Ok g'
    /\ complete g'
    /\ (forall st, default 0 (g' !! st)
                   = default 0 (g !! st) + (if bool_decide (stat = st) then 1 else 0)).
Proof.
  intros Hknown Hg. destruct (Hg stat Hknown) as [n Hn].
  unfold bump, item. rewrite Hn. cbn.
  eexists. split; [done|]. split.
  - intros st Hst. destruct (decide (stat = st)) as [<-|Hne].
    + rewrite lookup_insert_eq. by eexists.
    + rewrite lookup_insert_ne by done. by apply Hg.
  - intros st. case_bool_decide as Hst.
    + subst. rewrite lookup_insert_eq, Hn. done.
    + rewrite lookup_insert_ne by done. lia.
Qed.


Lemma item_Some {V} (k : string) (d : gmap string V) (v : V) :
  d !! k = Some v -> item k d = Ok v.
Proof. unfold item. by intros ->. Qed.

Lemma bind_Ok {A B} (a : A) (k : A -> result B) : Ok a ≫= k = k a.
Proof. reflexivity. Qed.

(** By how much the two increments raise the counter of [st] in [b]. *)
#[local] Abbreviation delta stat server_id b st :=
  (if bool_decide (stat = st)
      && (bool_decide (b = "global")
          || match supplied server_id with
             | Some z => bool_decide (b = pretty z)
             | None => false
             end)
   then 1 else 0).

Lemma bump_buckets_spec (stat : string) (server_id : option Z)
    (srv : gmap string (gmap string Z)) :
  known stat ->
  (forall k b, srv !! k = Some b -> complete b) ->
  is_Some (srv !! "global") ->
  (forall z, supplied server_id = Some z -> is_Some (srv !! pretty z)) ->
  exists srv', bump_buckets stat server_id srv = Ok srv'
    /\ (forall k b, srv' !! k = Some b -> complete b)
    /\ (forall b st, count srv' b st = count srv b st + delta stat server_id b st).
Proof.
  intros Hknown Hall [g Hg] Hsrv. unfold bump_buckets.
  rewrite (item_Some _ _ _ Hg), bind_Ok.
  destruct (bump_spec stat g Hknown (Hall _ _ Hg)) as (g' & -> & Hkeep & Hcnt).
  rewrite bind_Ok.
  destruct (supplied server_id) as [z|] eqn:Hz.
  - pose proof (pretty_Z_ne_global z) as Hne.
    destruct (Hsrv z eq_refl) as [b0 Hb0].
    rewrite (item_Some _ _ b0), bind_Ok by by rewrite lookup_insert_ne.
    destruct (bump_spec stat b0 Hknown (Hall _ _ Hb0))
      as (b' & -> & Hkeep' & Hcnt').
    rewrite bind_Ok. eexists. split; [done|]. split.
    + intros k b Hk. apply lookup_insert_Some in Hk as [[_ <-]|[_ Hk]].
      { exact Hkeep'. }
      apply lookup_insert_Some in Hk as [[_ <-]|[_ Hk]].
      { exact Hkeep. }
      by eapply Hall.
    + intros b st. destruct (decide (b = pretty z)) as [->|Hb].
      * rewrite lookup_insert_eq, Hb0. cbn. rewrite Hcnt'.
        rewrite (bool_decide_eq_false_2 (pretty z = "global")) by done.
        rewrite (bool_decide_eq_true_2 (pretty z = pretty z)) by done.
        cbn. by rewrite andb_true_r.
      * rewrite lookup_insert_ne by done.
        rewrite (bool_decide_eq_false_2 (b = pretty z)) by done.
        rewrite orb_false_r.
        destruct (decide (b = "global")) as [->|Hb'].
        { rewrite lookup_insert_eq, Hg. cbn. rewrite Hcnt.
          rewrite (bool_decide_eq_true_2 ("global" = "global")) by done.
          by rewrite andb_true_r. }
        rewrite lookup_insert_ne by done.
        rewrite (bool_decide_eq_false_2 (b = "global")) by done.
        rewrite andb_false_r. lia.
  - eexists. split; [done|]. split.
    + intros k b Hk. apply lookup_insert_Some in Hk as [[_ <-]|[_ Hk]].
      { exact Hkeep. }
      by eapply Hall.
    + intros b st. rewrite orb_false_r.
      destruct (decide (b = "global")) as [->|Hb'].
      { rewrite lookup_insert_eq, Hg. cbn. rewrite Hcnt.
        rewrite (bool_decide_eq_true_2 ("global" = "global")) by done.
        by rewrite andb_true_r. }
      rewrite lookup_insert_ne by done.
      rewrite (bool_decide_eq_false_2 (b = "global")) by done.
      rewrite andb_false_r. lia.
Qed.


Lemma ensure_spec (k : string) (srv : gmap string (gmap string Z)) :
  (forall k' b, srv !! k' = Some b -> complete b) ->
  let srv' := match srv !! k with
              | Some _ => srv
              | None => <[k := zero_bucket]> srv
              end in
  (forall k' b, srv' !! k' = Some b -> complete b)
  /\ is_Some (srv' !! k)
  /\ (forall k', is_Some (srv !! k') -> is_Some (srv' !! k')).
Proof.
  intros Hall. destruct (srv !! k) as [b0|] eqn:E; cbn.
  - split; [done|]. split; [by rewrite E|done].
  - split; [|split].
    + intros k' b Hk. apply lookup_insert_Some in Hk as [[_ <-]|[_ Hk]].
      * apply zero_bucket_complete.
      * by eapply Hall.
    + by rewrite lookup_insert_eq.
    + intros k' Hk. destruct (decide (k = k')) as [<-|Hne].
      * by rewrite lookup_insert_eq.
      * by rewrite lookup_insert_ne.
Qed.

Lemma init_user_spec (user_id : Z) (stats : gmap string user_data) :
  well_formed stats ->
  exists u0 srv0,
    init_user (pretty user_id) stats !! pretty user_id = Some u0
    /\ servers u0 = Some srv0
    /\ (forall k b, srv0 !! k = Some b -> complete b)
    /\ (forall b st, count srv0 b st = counter stats user_id b st)
    /\ (forall uid, uid <> pretty user_id ->
          init_user (pretty user_id) stats !! uid = stats !! uid).
Proof.
  intros Htr. unfold init_user, counter.
  destruct (stats !! pretty user_id) as [u|] eqn:Hu.
  - destruct (Htr _ _ Hu) as (srv & Hsrv & Hall).
    exists u, srv. rewrite Hu. cbn. rewrite Hsrv. by repeat split.
  - eexists _, _. rewrite lookup_insert_eq. split; [done|]. split; [done|].
    split; [|split].
    + intros k b Hk. apply lookup_singleton_Some in Hk as [_ <-].
      apply zero_bucket_complete.
    + intros b st. cbn. destruct (decide ("global" = b)) as [<-|Hne].
      * rewrite lookup_singleton_eq. cbn. apply zero_bucket_count.
      * by rewrite lookup_singleton_ne.
    + intros uid Hne. by rewrite lookup_insert_ne.
Qed.

Lemma update_spec (get_user : option string) (user_id : Z) (stat : string)
    (server_id : option Z) (stats : gmap string user_data) :
  known stat -> well_formed stats ->
  exists stats', update get_user user_id stat server_id stats = Ok stats'
    /\ well_formed stats'
    /\ is_Some (stats' !! pretty user_id)
    /\ (forall u b st,
          counter stats' u b st
          = counter stats u b st
            + raises (mk_incr get_user user_id stat server_id) u b st).
Proof.
  intros Hknown Htr. unfold update.
  destruct (init_user_spec user_id stats Htr)
    as (u0 & srv0 & Hu0 & Hsrv0 & Hall0 & Hcnt0 & Hother).
  rewrite (item_Some _ _ _ Hu0), bind_Ok.
  set (u1 := set_username get_user u0).
  assert (Hsrv1 : servers u1 = Some srv0) by by destruct get_user.
  (* the server bucket *)
  assert (exists srv1, servers (init_server server_id u1) = Some srv1
            /\ (forall k b, srv1 !! k = Some b -> complete b)
            /\ (forall z, supplied server_id = Some z -> is_Some (srv1 !! pretty z))
            /\ (forall b st, count srv1 b st = count srv0 b st))
    as (srv1 & -> & Hall1 & Hz1 & Hcnt1).
  { unfold init_server. destruct (supplied server_id) as [z|].
    - rewrite Hsrv1. cbn [default servers].
      destruct (ensure_spec (pretty z) srv0 Hall0) as (Ha & Hb & _).
      eexists. split; [done|]. split; [exact Ha|]. split.
      + by intros ? [= <-].
      + intros b st. apply count_ensure.
    - exists srv0. by repeat split. }
  rewrite bind_Ok.
  (* the global bucket *)
  destruct (ensure_spec "global" srv1 Hall1) as (Hall2 & Hg2 & Hkeep2).
  fold (init_global srv1) in Hall2, Hg2, Hkeep2.
  destruct (bump_buckets_spec stat server_id (init_global srv1) Hknown Hall2 Hg2)
    as (srv3 & -> & Hall3 & Hcnt3).
  { intros z Hz. by apply Hkeep2, Hz1. }
  rewrite bind_Ok. eexists. split; [done|]. split; [|split].
  - intros uid u Hu. apply lookup_insert_Some in Hu as [[_ <-]|[Hne Hu]].
    + by exists srv3.
    + rewrite Hother in Hu by done. by eapply Htr.
  - by rewrite lookup_insert_eq.
  - intros u b st. unfold raises. cbn [incr_user_id incr_stat incr_server_id].
    destruct (decide (user_id = u)) as [<-|Hne].
    + rewrite (bool_decide_eq_true_2 (user_id = user_id)) by done.
      rewrite andb_true_l.
      unfold counter at 1. rewrite lookup_insert_eq. cbn.
      rewrite Hcnt3. unfold init_global. rewrite count_ensure, Hcnt1, Hcnt0.
      done.
    + rewrite (bool_decide_eq_false_2 (user_id = u)) by done. cbn.
      unfold counter. rewrite lookup_insert_ne, Hother; [lia| |].
      * intros Heq. by apply (inj pretty) in Heq.
      * intros Heq. by apply (inj pretty) in Heq.
Qed.


Lemma decode_well_formed (data : gmap string user_data) :
  well_formed data -> decode data = data.
Proof.
  intros Hwf. unfold decode.
  destruct (decide (data = ∅)) as [->|Hne].
  - by rewrite bool_decide_eq_true_2.
  - rewrite bool_decide_eq_false_2 by done. cbn.
    apply map_choose in Hne as (uid & u & Hu).
    destruct (Hwf _ _ Hu) as (srv & Hsrv & _).
    assert (existsb (fun '(_, user_data) =>
                       bool_decide (is_Some (servers user_data)))
                    (map_to_list data) = true) as ->; [|done].
    apply existsb_exists. exists (uid, u). split.
    + by apply list_elem_of_In, elem_of_map_to_list.
    + apply bool_decide_eq_true_2. by rewrite Hsrv.
Qed.

Lemma decode_old_format (data : gmap string user_data) :
  data <> ∅ ->
  (forall uid u, data !! uid = Some u -> servers u = None) ->
  decode data = migrate <$> data /\ well_formed (decode data).
Proof.
  intros Hne Hold.
  assert (decode data = migrate <$> data) as ->.
  { unfold decode. rewrite bool_decide_eq_false_2 by done. cbn.
    destruct (existsb _ _) eqn:E; [|done].
    apply existsb_exists in E as ([uid u] & Hin & Hs).
    apply list_elem_of_In, elem_of_map_to_list in Hin.
    apply bool_decide_eq_true_1 in Hs. rewrite (Hold _ _ Hin) in Hs.
    by destruct Hs. }
  split; [done|]. intros uid u Hu.
  apply lookup_fmap_Some in Hu as (u0 & <- & _).
  eexists. split; [done|]. intros k b Hk.
  apply lookup_singleton_Some in Hk as [_ <-]. intros stat Hstat.
  unfold known in Hstat.
  apply elem_of_cons in Hstat as [->|Hstat]; [by rewrite lookup_insert_eq|].
  apply elem_of_cons in Hstat as [->|Hstat].
  { rewrite lookup_insert_ne, lookup_insert_eq; done. }
  apply elem_of_cons in Hstat as [->|Hstat]; [|by apply elem_of_nil in Hstat].
  rewrite !lookup_insert_ne, lookup_singleton_eq; done.
Qed.

Lemma read_user_stats_spec (d : disk) :
  locked d = false ->
  read_user_stats d
  = Some (stored d,
          mk_disk (file d) false (events d ++ [Acquire; ReadFile; Release])%list).
Proof.
  intros Hfree. unfold read_user_stats, with_lock, stored, note. rewrite Hfree.
  destruct (file d); cbn; by rewrite <- !app_assoc.
Qed.

Lemma write_user_stats_spec (data : gmap string user_data) (d : disk) :
  locked d = false ->
  write_user_stats data d
  = Some (tt, mk_disk (Some data) false
                (events d ++ [Acquire; WriteFile; Release])%list).
Proof.
  intros Hfree. unfold write_user_stats, with_lock, note. rewrite Hfree.
  cbn. by rewrite <- !app_assoc.
Qed.

Lemma increment_user_stat_spec (c : incr) (d : disk) :
  locked d = false -> known (incr_stat c) -> well_formed (stored d) ->
  exists d',
    increment_user_stat (incr_get_user c) (incr_user_id c) (incr_stat c)
      (incr_server_id c) d = Some (Ok tt, d')
    /\ locked d' = false
    /\ events d' = (events d ++ one_call)%list
    /\ well_formed (stored d')
    /\ (forall u b st,
          counter (stored d') u b st
          = counter (stored d) u b st + raises c u b st).
Proof.
  intros Hfree Hknown Hwf. destruct c as [gu uid stat sid]. cbn in *.
  destruct (update_spec gu uid stat sid (stored d) Hknown Hwf)
    as (stats' & Hup & Hwf' & _ & Hcnt).
  unfold increment_user_stat.
  rewrite (read_user_stats_spec d Hfree), Hup, write_user_stats_spec by done.
  eexists. split; [done|]. cbn. split; [done|]. split.
  { by rewrite <- !app_assoc. }
  unfold stored. cbn. rewrite (decode_well_formed _ Hwf'). by split.
Qed.


Lemma supplied_Some (server_id : option Z) (z : Z) :
  supplied server_id = Some z <-> server_id = Some z /\ z <> 0.
Proof.
  unfold supplied. destruct server_id as [z'|]; [|by split; [|intros []]].
  destruct (Z.eqb_spec z' 0) as [->|Hne].
  - split; [done|]. by intros [[= <-] ?].
  - split; [by intros [= <-]|]. by intros [-> _].
Qed.

Lemma raises_global get_user user_id stat server_id :
  raises (mk_incr get_user user_id stat server_id) user_id "global" stat = 1.
Proof.
  unfold raises. cbn. by rewrite !bool_decide_eq_true_2.
Qed.

Lemma raises_server get_user user_id stat server_id (z : Z) :
  raises (mk_incr get_user user_id stat server_id) user_id (pretty z) stat
  = if bool_decide (server_id = Some z /\ z <> 0) then 1 else 0.
Proof.
  unfold raises. cbn [incr_user_id incr_stat incr_server_id].
  rewrite !bool_decide_eq_true_2 by done.
  rewrite (bool_decide_eq_false_2 (pretty z = "global"))
    by apply pretty_Z_ne_global.
  cbn. destruct (supplied server_id) as [z'|] eqn:Hz.
  - apply supplied_Some in Hz as [Hz Hne]. rewrite Hz.
    destruct (decide (z = z')) as [->|Hzz].
    + by rewrite !bool_decide_eq_true_2.
    + rewrite !bool_decide_eq_false_2; [done| |].
      * intros [[= ->] _]. done.
      * intros Heq. by apply (inj pretty) in Heq.
  - rewrite bool_decide_eq_false_2; [done|].
    intros Hs. apply supplied_Some in Hs. congruence.
Qed.

(** C6. An increment of one of the three statistics on a store in the
    new format, made without a server id or with the id of a Discord
    server (ids are snowflakes, never 0), raises the counter of the
    statistic in the user's global bucket by exactly 1, and raises it in
    the bucket of a server by 1 exactly when that server's id is
    supplied.  Starting from an empty store, an increment without a
    server id followed by one with a server id, for the same user,
    leaves the global counter at 2 and that server's counter at 1. *)
Theorem increment_counts :
  (forall get_user user_id stat server_id d,
     locked d = false -> known stat -> well_formed (stored d) ->
     server_id <> Some 0 ->
     exists d',
       increment_user_stat get_user user_id stat server_id d = Some (Ok tt, d')
       /\ well_formed (stored d')
       /\ counter (stored d') user_id "global" stat
          = counter (stored d) user_id "global" stat + 1
       /\ (forall z,
             counter (stored d') user_id (pretty z) stat
             = counter (stored d) user_id (pretty z) stat
               + (if bool_decide (server_id = Some z) then 1 else 0)))
  /\ (forall name1 name2 user_id stat g,
       known stat -> g <> 0 ->
       exists d1 d2,
         increment_user_stat name1 user_id stat None (mk_disk (Some ∅) false [])
         = Some (Ok tt, d1)
         /\ increment_user_stat name2 user_id stat (Some g) d1 = Some (Ok tt, d2)
         /\ counter (stored d2) user_id "global" stat = 2
         /\ counter (stored d2) user_id (pretty g) stat = 1).
Proof.
  split.
  - intros get_user user_id stat server_id d Hfree Hknown Hwf Hid.
    destruct (increment_user_stat_spec (mk_incr get_user user_id stat server_id)
                d Hfree Hknown Hwf) as (d' & Hd' & _ & _ & Hwf' & Hcnt).
    exists d'. split; [done|]. split; [done|]. split.
    + by rewrite Hcnt, raises_global.
    + intros z. rewrite Hcnt, raises_server. f_equal.
      repeat case_bool_decide; try done.
      * by destruct H.
      * destruct H. split; [done|]. by intros ->.
  - intros name1 name2 user_id stat g Hknown Hg.
    destruct (increment_user_stat_spec (mk_incr name1 user_id stat None)
                (mk_disk (Some ∅) false []) eq_refl Hknown)
      as (d1 & Hd1 & Hfree1 & _ & Hwf1 & Hcnt1).
    { assert (stored (mk_disk (Some ∅) false []) = ∅) as ->.
      { unfold stored. cbn. apply decode_well_formed.
        intros uid u Hu. by apply lookup_empty_Some in Hu. }
      intros uid u Hu. by apply lookup_empty_Some in Hu. }
    destruct (increment_user_stat_spec (mk_incr name2 user_id stat (Some g))
                d1 Hfree1 Hknown Hwf1) as (d2 & Hd2 & _ & _ & _ & Hcnt2).
    exists d1, d2. split; [done|]. split; [done|].
    rewrite !Hcnt2, !Hcnt1, !raises_global, !raises_server.
    rewrite (bool_decide_eq_false_2 (None = Some g /\ g <> 0)) by by intros [? _].
    rewrite (bool_decide_eq_true_2 (Some g = Some g /\ g <> 0)) by done.
    by split.
Qed.

Lemma increment_counts_witness :
  exists d1 d2,
    increment_user_stat (Some "ann") 7 "mentions" None (mk_disk (Some ∅) false [])
    = Some (Ok tt, d1)
    /\ increment_user_stat (Some "ann") 7 "mentions" (Some 42) d1
       = Some (Ok tt, d2)
    /\ counter (stored d2) 7 "global" "mentions" = 2
    /\ counter (stored d2) 7 "42" "mentions" = 1.
Proof.
  destruct increment_counts as [_ H].
  apply (H (Some "ann") (Some "ann") 7 "mentions" 42); [|done].
  unfold known. apply list_elem_of_further, list_elem_of_further, list_elem_of_here.
Defined.

(** The id 0, which no caller passes, is taken for no id by the test
    [if server_id:]: on an empty store the global counter goes to 1 and
    no bucket is made or raised for the server. *)
Lemma server_id_zero_not_counted :
  exists d',
    increment_user_stat None 7 "mentions" (Some 0) (mk_disk (Some ∅) false [])
    = Some (Ok tt, d')
    /\ counter (stored d') 7 "global" "mentions" = 1
    /\ counter (stored d') 7 "0" "mentions" = 0.
Proof. eexists. split; [vm_compute; reflexivity|]. by vm_compute. Qed.


Lemma increments_spec (calls : list incr) : forall d : disk,
  locked d = false ->
  Forall (fun c => known (incr_stat c)) calls ->
  well_formed (stored d) ->
  exists d',
    increments calls d = Some d'
    /\ locked d' = false
    /\ well_formed (stored d')
    /\ events d' = (events d ++ mjoin (map (fun _ => one_call) calls))%list
    /\ (forall u b st,
          counter (stored d') u b st
          = counter (stored d) u b st
            + foldr Z.add 0 (map (fun c => raises c u b st) calls)).
Proof.
  induction calls as [|c calls IH]; intros d Hfree Hknown Hwf; cbn.
  - exists d. rewrite app_nil_r. repeat split; try done. intros. lia.
  - apply Forall_cons in Hknown as [Hc Hknown].
    destruct (increment_user_stat_spec c d Hfree Hc Hwf)
      as (d1 & -> & Hfree1 & Hev1 & Hwf1 & Hcnt1).
    destruct (IH d1 Hfree1 Hknown Hwf1) as (d' & -> & Hfree' & Hwf' & Hev' & Hcnt').
    exists d'. split; [done|]. split; [done|]. split; [done|]. split.
    + by rewrite Hev', Hev1, <- app_assoc.
    + intros u b st. rewrite Hcnt', Hcnt1. lia.
Qed.

Lemma resume_increment (c : incr) (d d' : disk) :
  increment_user_stat (incr_get_user c) (incr_user_id c) (incr_stat c)
    (incr_server_id c) d = Some (Ok tt, d') ->
  EventLoop.resume (EventLoop.AtRead c) d = (EventLoop.Done c (Ok tt), d').
Proof.
  unfold increment_user_stat, EventLoop.resume, EventLoop.resume_write.
  destruct (read_user_stats d) as [[stats d1]|]; [|done].
  destruct (update _ _ _ _ stats) as [stats'|e]; [|done].
  destruct (write_user_stats stats' d1) as [[[] d2]|]; [|done].
  by intros [= <-].
Qed.

Lemma sum_insert {A} (f : A -> Z) (l : list A) : forall (i : nat) (x y : A),
  l !! i = Some x ->
  foldr Z.add 0 (map f (<[i := y]> l)) = foldr Z.add 0 (map f l) - f x + f y.
Proof.
  induction l as [|a l IH]; intros [|i] x y Hx; try done.
  - injection Hx as ->. cbn. lia.
  - change (<[S i := y]> (a :: l)) with (a :: <[i := y]> l).
    change (foldr Z.add 0 (map f (a :: <[i := y]> l)))
      with (f a + foldr Z.add 0 (map f (<[i := y]> l))).
    rewrite (IH i x y Hx). cbn. lia.
Qed.

Lemma credit_waiting (u : Z) (b st : string) (calls : list incr) :
  foldr Z.add 0 (map (EventLoop.credit u b st) (map EventLoop.AtRead calls)) = 0.
Proof. induction calls as [|c calls IH]; [done|]. cbn. by rewrite IH. Qed.

Lemma credit_done (u : Z) (b st : string) (calls : list incr) :
  foldr Z.add 0
    (map (EventLoop.credit u b st)
       (map (fun c => EventLoop.Done c (Ok tt)) calls))
  = foldr Z.add 0 (map (fun c => raises c u b st) calls).
Proof. induction calls as [|c calls IH]; [done|]. cbn. by rewrite IH. Qed.

(** Whatever the order of the turns: a task that has had a turn is done,
    the others have not begun, the lock is free, and the file has every
    increment of the tasks that are done. *)
Lemma run_serialises (calls : list incr) (d : disk) :
  locked d = false ->
  Forall (fun c => known (incr_stat c)) calls ->
  well_formed (stored d) ->
  forall schedule : list nat,
  exists tasks d' n,
    EventLoop.run schedule (map EventLoop.AtRead calls, d) = (tasks, d')
    /\ locked d' = false
    /\ well_formed (stored d')
    /\ events d' = (events d ++ mjoin (replicate n one_call))%list
    /\ length tasks = length calls
    /\ (forall i c, calls !! i = Some c ->
          tasks !! i = Some (if bool_decide (i ∈ schedule)
                             then EventLoop.Done c (Ok tt)
                             else EventLoop.AtRead c))
    /\ (forall u b st,
          counter (stored d') u b st
          = counter (stored d) u b st
            + foldr Z.add 0 (map (EventLoop.credit u b st) tasks)).
Proof.
  intros Hfree Hknown Hwf schedule.
  induction schedule as [|i schedule IH] using rev_ind.
  - exists (map EventLoop.AtRead calls), d, 0%nat.
    split; [done|]. split; [done|]. split; [done|].
    split; [by rewrite app_nil_r|]. split; [by rewrite length_map|]. split.
    + intros i c Hc. rewrite list_lookup_fmap, Hc. cbn.
      rewrite bool_decide_eq_false_2; [done|]. intros H. by apply elem_of_nil in H.
    + intros u b st. rewrite credit_waiting. lia.
  - destruct IH as (tasks & d' & n & Hrun & Hfree' & Hwf' & Hev & Hlen & Htasks & Hcnt).
    unfold EventLoop.run in *. rewrite foldl_snoc, Hrun.
    unfold EventLoop.turn. cbn [fst snd].
    assert (Hmem : forall j, j <> i ->
              bool_decide (j ∈ (schedule ++ [i])%list) = bool_decide (j ∈ schedule)).
    { intros j Hji. apply bool_decide_ext. rewrite elem_of_app.
      rewrite list_elem_of_singleton. naive_solver. }
    destruct (tasks !! i) as [t|] eqn:Ht.
    2:{ exists tasks, d', n. do 5 (split; [done|]). split; [|done].
        intros j c Hc. rewrite (Htasks j c Hc).
        destruct (decide (j = i)) as [->|Hji].
        { rewrite (Htasks i c Hc) in Ht. done. }
        by rewrite Hmem. }
    assert (Hi : (i < length calls)%nat).
    { rewrite <- Hlen. by eapply lookup_lt_Some. }
    destruct (lookup_lt_is_Some_2 calls i Hi) as [c Hc].
    pose proof (Htasks i c Hc) as Hti. rewrite Ht in Hti. injection Hti as Hti.
    assert (Hmemi : bool_decide (i ∈ (schedule ++ [i])%list) = true).
    { apply bool_decide_eq_true_2, elem_of_app. right. apply list_elem_of_here. }
    destruct (bool_decide (i ∈ schedule)) eqn:Hin; subst t.
    + (* the task is done already *)
      cbn [EventLoop.resume].
      rewrite (list_insert_id _ _ _ Ht).
      exists tasks, d', n. do 5 (split; [done|]). split; [|done].
      intros j c0 Hc0. rewrite (Htasks j c0 Hc0).
      destruct (decide (j = i)) as [->|Hji].
      * by rewrite Hmemi, Hin.
      * by rewrite Hmem.
    + (* its first turn: it runs from the read to the end of the write *)
      assert (Hkc : known (incr_stat c)).
      { by apply (Forall_lookup_1 _ _ _ _ Hknown Hc). }
      destruct (increment_user_stat_spec c d' Hfree' Hkc Hwf')
        as (d2 & Hd2 & Hfree2 & Hev2 & Hwf2 & Hcnt2).
      rewrite (resume_increment c d' d2 Hd2).
      exists (<[i := EventLoop.Done c (Ok tt)]> tasks), d2, (S n).
      split; [done|]. split; [done|]. split; [done|]. split.
      { rewrite Hev2, Hev, replicate_S_end, join_app, <- app_assoc.
        do 2 f_equal. }
      split; [by rewrite length_insert|]. split.
      * intros j c0 Hc0. destruct (decide (j = i)) as [->|Hji].
        -- rewrite Hmemi, list_lookup_insert_eq by lia. congruence.
        -- rewrite list_lookup_insert_ne by done.
           by rewrite (Htasks j c0 Hc0), Hmem.
      * intros u b st.
        rewrite Hcnt2, Hcnt, (sum_insert _ _ _ _ _ Ht). cbn. lia.
Qed.

(** C7 (amended). A call of [increment_user_stat] takes the lock, reads
    the file and gives the lock back, then takes it again, writes the
    file and gives it back: reading and writing happen under the lock,
    in two separate critical sections with the lock free in between.
    Calls made one after the other lose no update.  Nor do calls that
    run as concurrent tasks: in whatever order the event loop gives
    them their turns, a task at its first turn goes from its read
    through its write without giving up control, so that the file is
    read and written in whole calls, no task is left holding a store
    read before another task's write, and every counter ends raised by
    the number of tasks done that raise it; once every task has had a
    turn, that is by every call. *)
Theorem increment_locks_read_and_write_apart :
  guarded false one_call = true
  /\ spans false one_call = false
  /\ (forall (calls : list incr) (d : disk),
       locked d = false ->
       Forall (fun c => known (incr_stat c)) calls ->
       well_formed (stored d) ->
       exists d',
         increments calls d = Some d'
         /\ locked d' = false
         /\ events d' = (events d ++ mjoin (map (fun _ => one_call) calls))%list
         /\ (forall u b st,
               counter (stored d') u b st
               = counter (stored d) u b st
                 + foldr Z.add 0 (map (fun c => raises c u b st) calls)))
  /\ (forall (calls : list incr) (d : disk) (schedule : list nat),
       locked d = false ->
       Forall (fun c => known (incr_stat c)) calls ->
       well_formed (stored d) ->
       exists tasks d' n,
         EventLoop.run schedule (map EventLoop.AtRead calls, d) = (tasks, d')
         /\ locked d' = false
         /\ events d' = (events d ++ mjoin (replicate n one_call))%list
         /\ (forall i c, calls !! i = Some c ->
               tasks !! i = Some (if bool_decide (i ∈ schedule)
                                  then EventLoop.Done c (Ok tt)
                                  else EventLoop.AtRead c))
         /\ (forall u b st,
               counter (stored d') u b st
               = counter (stored d) u b st
                 + foldr Z.add 0 (map (EventLoop.credit u b st) tasks))
         /\ ((forall i, (i < length calls)%nat -> i ∈ schedule) ->
             tasks = map (fun c => EventLoop.Done c (Ok tt)) calls
             /\ forall u b st,
                  counter (stored d') u b st
                  = counter (stored d) u b st
                    + foldr Z.add 0 (map (fun c => raises c u b st) calls))).
Proof.
  split; [reflexivity|]. split; [reflexivity|]. split.
  - intros calls d Hfree Hknown Hwf.
    destruct (increments_spec calls d Hfree Hknown Hwf)
      as (d' & H1 & H2 & _ & H3 & H4).
    by exists d'.
  - intros calls d schedule Hfree Hknown Hwf.
    destruct (run_serialises calls d Hfree Hknown Hwf schedule)
      as (tasks & d' & n & Hrun & Hfree' & _ & Hev & Hlen & Htasks & Hcnt).
    exists tasks, d', n. do 5 (split; [done|]).
    intros Hall.
    assert (Hdone : tasks = map (fun c => EventLoop.Done c (Ok tt)) calls).
    { apply list_eq. intros i. rewrite list_lookup_fmap.
      destruct (calls !! i) as [c|] eqn:Hc; cbn.
      - rewrite (Htasks i c Hc), bool_decide_eq_true_2; [done|].
        apply Hall. by eapply lookup_lt_Some.
      - apply lookup_ge_None. rewrite Hlen. by apply lookup_ge_None. }
    split; [done|]. intros u b st. by rewrite Hcnt, Hdone, credit_done.
Qed.

Lemma increment_locks_read_and_write_apart_witness :
  let calls := [mk_incr None 7 "mentions" None;
                mk_incr (Some "bob") 8 "mentions" (Some 42);
                mk_incr None 7 "mentions" (Some 42)] in
  (exists d',
     increments calls (mk_disk None false []) = Some d'
     /\ events d' = (one_call ++ one_call ++ one_call)%list
     /\ counter (stored d') 7 "global" "mentions" = 2
     /\ counter (stored d') 8 "global" "mentions" = 1
     /\ counter (stored d') 7 "42" "mentions" = 1)
  /\ (exists tasks d',
        EventLoop.run [2; 0; 2; 1; 0]%nat
          (map EventLoop.AtRead calls, mk_disk None false []) = (tasks, d')
        /\ tasks = map (fun c => EventLoop.Done c (Ok tt)) calls
        /\ events d' = (one_call ++ one_call ++ one_call)%list
        /\ counter (stored d') 7 "global" "mentions" = 2
        /\ counter (stored d') 8 "global" "mentions" = 1
        /\ counter (stored d') 7 "42" "mentions" = 1).
Proof.
  intros calls.
  assert (Hknown : Forall (fun c => known (incr_stat c)) calls).
  { unfold known. repeat constructor. }
  assert (Hwf : well_formed (stored (mk_disk None false []))).
  { intros uid u Hu. unfold stored in Hu. cbn in Hu.
    by apply lookup_empty_Some in Hu. }
  destruct increment_locks_read_and_write_apart as (_ & _ & Hseq & Hconc).
  split.
  - destruct (Hseq calls (mk_disk None false []) eq_refl Hknown Hwf)
      as (d' & Hd' & _ & Hev & Hcnt).
    exists d'. split; [done|]. split; [by rewrite Hev|].
    rewrite !Hcnt. by vm_compute.
  - destruct (Hconc calls (mk_disk None false []) [2; 0; 2; 1; 0]%nat
                eq_refl Hknown Hwf)
      as (tasks & d' & n & Hrun & _ & Hev & _ & _ & Hall).
    destruct Hall as [Hdone Hcnt].
    { intros i Hi. cbn in Hi.
      destruct i as [|[|[|i]]]; [| | |lia].
      - apply list_elem_of_further, list_elem_of_here.
      - do 3 apply list_elem_of_further. apply list_elem_of_here.
      - apply list_elem_of_here. }
    exists tasks, d'. split; [done|]. split; [done|]. split.
    { assert (Hd : d' = (EventLoop.run [2; 0; 2; 1; 0]%nat
                           (map EventLoop.AtRead calls, mk_disk None false [])).2)
        by by rewrite Hrun.
      rewrite Hd. by vm_compute. }
    rewrite !Hcnt. by vm_compute.
Defined.

(** C7, as stated, fails: in a call on an empty store the lock is given
    back after the read and taken again for the write; it does not span
    the cycle of read, change and write. *)
Lemma lock_released_between_read_and_write :
  exists d',
    increment_user_stat None 7 "mentions" None (mk_disk (Some ∅) false [])
    = Some (Ok tt, d')
    /\ events d' = [Acquire; ReadFile; Release; Acquire; WriteFile; Release]
    /\ spans false (events d') = false.
Proof. eexists. split; [vm_compute; reflexivity|]. by vm_compute. Qed.

End Statistics.

(** * Further properties *)

(** ** Text helpers *)

Section TextHelpers.
Import Text.

Variable isspace : N -> bool.

#[local] Abbreviation lstrip := (Text.lstrip isspace).
#[local] Abbreviation rstrip := (Text.rstrip isspace).
#[local] Abbreviation strip := (Text.strip isspace).
#[local] Abbreviation ink := (Text.ink isspace).

Lemma lstrip_split (s : list N) :
  exists pre, s = (pre ++ lstrip s)%list
    /\ Forall (fun c => isspace c = true) pre.
Proof.
  induction s as [|c s (pre & Hs & Hpre)]; [by exists []|]. cbn.
  destruct (isspace c) eqn:Hc.
  - exists (c :: pre). split; [by rewrite Hs at 1|by constructor].
  - by exists [].
Qed.

Lemma lstrip_head (s : list N) (c : N) (s' : list N) :
  lstrip s = c :: s' -> isspace c = false.
Proof.
  induction s as [|x s IH]; [done|]. cbn.
  destruct (isspace x) eqn:Hx; [done|]. by intros [= <- _].
Qed.

Lemma lstrip_fixed (s : list N) :
  match s with [] => True | c :: _ => isspace c = false end -> lstrip s = s.
Proof. destruct s as [|c s]; [done|]. cbn. by intros ->. Qed.

Lemma lstrip_lstrip (s : list N) : lstrip (lstrip s) = lstrip s.
Proof.
  apply lstrip_fixed. destruct (lstrip s) as [|c s'] eqn:E; [done|].
  by eapply lstrip_head.
Qed.

Lemma rstrip_split (s : list N) :
  exists post, s = (rstrip s ++ post)%list
    /\ Forall (fun c => isspace c = true) post.
Proof.
  destruct (lstrip_split (rev s)) as (pre & Hs & Hpre).
  exists (rev pre). split.
  - unfold Text.rstrip. rewrite <- rev_app_distr, <- Hs. by rewrite rev_involutive.
  - apply Forall_forall. intros c Hc.
    apply list_elem_of_In, in_rev, list_elem_of_In in Hc.
    by eapply Forall_forall in Hpre.
Qed.

Lemma rstrip_rstrip (s : list N) : rstrip (rstrip s) = rstrip s.
Proof. unfold Text.rstrip. by rewrite rev_involutive, lstrip_lstrip. Qed.

Lemma lstrip_rstrip (s : list N) : lstrip s = s -> lstrip (rstrip s) = rstrip s.
Proof.
  intros Hs. apply lstrip_fixed.
  destruct (rstrip s) as [|c t] eqn:E; [done|].
  destruct (rstrip_split s) as (post & Hsplit & _). rewrite E in Hsplit.
  rewrite Hsplit in Hs. cbn in Hs.
  destruct (isspace c) eqn:Hc; [|done].
  assert (length (lstrip (t ++ post)) <= length (t ++ post))%nat as Hlen.
  { destruct (lstrip_split (t ++ post)) as (pre & Hp & _).
    rewrite Hp at 2. rewrite length_app. lia. }
  rewrite Hs in Hlen. cbn in Hlen. lia.
Qed.

Lemma strip_strip (s : list N) : strip (strip s) = strip s.
Proof.
  unfold Text.strip. rewrite (lstrip_rstrip (lstrip s)) by apply lstrip_lstrip.
  apply rstrip_rstrip.
Qed.

Lemma strip_split (s : list N) :
  exists pre post, s = (pre ++ strip s ++ post)%list
    /\ Forall (fun c => isspace c = true) pre
    /\ Forall (fun c => isspace c = true) post.
Proof.
  destruct (lstrip_split s) as (pre & Hs & Hpre).
  destruct (rstrip_split (lstrip s)) as (post & Ht & Hpost).
  exists pre, post. split; [|done]. rewrite Hs at 1. by rewrite Ht at 1.
Qed.

Lemma ink_spaces (l : list N) :
  Forall (fun c => isspace c = true) l -> ink l = [].
Proof.
  induction 1 as [|c l Hc _ IH]; [done|]. unfold Text.ink in *. cbn.
  by rewrite Hc.
Qed.

Lemma ink_app (l1 l2 : list N) : ink (l1 ++ l2) = (ink l1 ++ ink l2)%list.
Proof. apply List.filter_app. Qed.

Lemma ink_strip (s : list N) : ink (strip s) = ink s.
Proof.
  destruct (strip_split s) as (pre & post & Hs & Hpre & Hpost).
  rewrite Hs at 2. rewrite !ink_app, (ink_spaces pre), (ink_spaces post) by done.
  by rewrite app_nil_r.
Qed.

Lemma strip_length (s : list N) : (length (strip s) <= length s)%nat.
Proof.
  destruct (strip_split s) as (pre & post & Hs & _).
  rewrite Hs at 2. rewrite !length_app. lia.
Qed.

Lemma strip_length_space (c : N) (s : list N) :
  isspace c = true -> (length (strip (c :: s)) <= length s)%nat.
Proof.
  intros Hc. unfold Text.strip. cbn. rewrite Hc.
  apply (strip_length s).
Qed.


Lemma rfind_from_Some (c : N) (s : list N) : forall (i j : nat),
  rfind_from c i s = Some j -> (i <= j)%nat /\ s !! (j - i)%nat = Some c.
Proof.
  induction s as [|x s IH]; intros i j; cbn; [done|].
  destruct (rfind_from c (S i) s) as [j'|] eqn:E.
  - intros [= <-]. destruct (IH _ _ E) as [Hle Hl]. split; [lia|].
    by replace (j' - i)%nat with (S (j' - S i)) by lia.
  - destruct (N.eqb_spec x c) as [->|]; [|done]. intros [= <-].
    split; [lia|]. by rewrite Nat.sub_diag.
Qed.

(** The two pieces that one round of the loop makes of [msg]. *)
Lemma split_round (max_len : Z) (msg : list N) :
  isspace space = true ->
  1 <= max_len < Z.of_nat (length msg) ->
  let idx := Text.rfind space msg max_len in
  let idx := if idx =? -1 then max_len else idx in
  let head := Text.slice_to msg idx in
  let rest := strip (Text.slice_from msg idx) in
  Z.of_nat (length head) <= max_len
  /\ (length rest < length msg)%nat
  /\ (ink head ++ ink rest)%list = ink msg.
Proof.
  intros Hsp Hlen. unfold Text.rfind, Text.slice_to, Text.slice_from, Text.bound.
  destruct (Z.ltb_spec max_len 0) as [|_]; [lia|].
  destruct (rfind_from space 0 (take (Z.to_nat max_len) msg)) as [j|] eqn:E.
  - apply rfind_from_Some in E as [_ Hj]. rewrite Nat.sub_0_r in Hj.
    apply lookup_take_Some in Hj as [Hj Hlt].
    destruct (Z.eqb_spec (Z.of_nat j) (-1)) as [|_]; [lia|].
    destruct (Z.ltb_spec (Z.of_nat j) 0) as [|_]; [lia|].
    rewrite Nat2Z.id. cbv zeta. split; [|split].
    + rewrite length_take. lia.
    + rewrite (drop_S _ _ _ Hj).
      pose proof (strip_length_space space (drop (S j) msg) Hsp) as Hs.
      rewrite length_drop in Hs. apply lookup_lt_Some in Hj. lia.
    + rewrite ink_strip, <- ink_app. by rewrite take_drop.
  - cbn. destruct (Z.ltb_spec max_len 0) as [|_]; [lia|]. split; [|split].
    + rewrite length_take. lia.
    + pose proof (strip_length (drop (Z.to_nat max_len) msg)) as Hs.
      rewrite length_drop in Hs. lia.
    + rewrite ink_strip, <- ink_app. by rewrite take_drop.
Qed.

Lemma split_loop_spec (max_len : Z) (fuel : nat) : forall (msg : list N)
    (parts : list (list N)),
  isspace space = true ->
  1 <= max_len ->
  (length msg <= fuel)%nat ->
  exists new,
    Text.split_loop isspace fuel max_len msg parts = Some (parts ++ new)%list
    /\ new <> []
    /\ Forall (fun p => Z.of_nat (length p) <= max_len) new
    /\ ink (concat new) = ink msg.
Proof.
  assert (Hfit : forall msg : list N,
            ink (concat [msg]) = ink msg
            /\ (Z.of_nat (length msg) <= max_len ->
                Forall (fun p : list N => Z.of_nat (length p) <= max_len) [msg])).
  { intros msg. split; [cbn; by rewrite app_nil_r|].
    intros H. constructor; [done|constructor]. }
  induction fuel as [|fuel IH]; intros msg parts Hsp Hmax Hfuel;
    cbn [Text.split_loop];
    destruct (Z.ltb_spec max_len (Z.of_nat (length msg))) as [Hlt|Hge].
  - lia.
  - exists [msg]. destruct (Hfit msg) as [Hink Hall]. by auto.
  - destruct (split_round max_len msg Hsp ltac:(lia)) as (Hhead & Hrest & Hink).
    cbv zeta in Hhead, Hrest, Hink.
    set (idx := if Text.rfind space msg max_len =? -1 then max_len
                else Text.rfind space msg max_len) in *.
    destruct (IH (strip (Text.slice_from msg idx))
                (parts ++ [Text.slice_to msg idx])%list Hsp Hmax ltac:(lia))
      as (new & Hloop & Hne & Hall & Hnew).
    exists (Text.slice_to msg idx :: new). rewrite Hloop.
    split; [by rewrite <- app_assoc|]. split; [done|]. split.
    { by constructor. }
    by rewrite concat_cons, ink_app, Hnew, Hink.
  - exists [msg]. destruct (Hfit msg) as [Hink Hall]. by auto.
Qed.

Lemma split_loop_fits (fuel : nat) (max_len : Z) (msg : list N)
    (parts : list (list N)) :
  Z.of_nat (length msg) <= max_len ->
  Text.split_loop isspace fuel max_len msg parts = Some (parts ++ [msg])%list.
Proof.
  intros Hfit. destruct fuel; cbn [Text.split_loop];
    destruct (Z.ltb_spec max_len (Z.of_nat (length msg))); done || lia.
Qed.

(** X1. For a limit of at least 1, [split_message] ends and returns at
    least one chunk; no chunk is longer than the limit; a message that
    fits is returned as the only chunk, unchanged; and the chunks, put
    together, are the message less some whitespace: no other character
    is lost, added or moved. *)
Theorem split_message_chunks (msg : list N) (max_len : Z) :
  isspace space = true ->
  1 <= max_len ->
  exists parts,
    Text.split_message isspace msg max_len = Some parts
    /\ parts <> []
    /\ Forall (fun p => Z.of_nat (length p) <= max_len) parts
    /\ (Z.of_nat (length msg) <= max_len -> parts = [msg])
    /\ ink (concat parts) = ink msg.
Proof.
  intros Hsp Hmax. unfold Text.split_message.
  destruct (split_loop_spec max_len (length msg) msg [] Hsp Hmax (le_n _))
    as (new & Hnew & Hne & Hall & Hink).
  exists new. split; [done|]. split; [done|]. split; [done|]. split; [|done].
  intros Hfit. rewrite (split_loop_fits _ _ _ _ Hfit) in Hnew.
  by injection Hnew as <-.
Qed.

(** X2. With the limit 0 the loop of [split_message] never ends on a
    message that is not empty and has no whitespace at its ends: every
    round leaves the message as it is. *)
Theorem split_message_limit_zero_loops (msg : list N) :
  msg <> [] -> strip msg = msg ->
  forall fuel parts, Text.split_loop isspace fuel 0 msg parts = None.
Proof.
  intros Hne Hs fuel.
  assert (Hfind : Text.rfind space msg 0 = -1) by reflexivity.
  assert (Hfrom : Text.slice_from msg 0 = msg) by reflexivity.
  induction fuel as [|fuel IH]; intros parts; cbn [Text.split_loop];
    (destruct (Z.ltb_spec 0 (Z.of_nat (length msg))) as [_|Hge];
     [|destruct msg; [done|cbn in Hge; lia]]).
  - done.
  - cbv zeta. rewrite Hfind. change (-1 =? -1) with true. cbv iota.
    rewrite Hfrom, Hs. apply IH.
Qed.


Lemma wrapped_nonempty (q : N) (text : list N) :
  Text.wrapped q text = true -> text <> [].
Proof. by destruct text. Qed.

Lemma removelast_length (l : list N) : (length (removelast l) <= length l)%nat.
Proof.
  induction l as [|x [|y l] IH]; cbn in *; lia.
Qed.

Lemma inner_length (text : list N) :
  text <> [] -> (length (Text.inner text) < length text)%nat.
Proof.
  destruct text as [|c text]; [done|]. intros _. unfold Text.inner. cbn.
  pose proof (removelast_length text). lia.
Qed.

Lemma clean_loop_unwrapped (fuel : nat) (text : list N) :
  Text.wrapped double_quote text = false ->
  Text.wrapped single_quote text = false ->
  Text.clean_loop isspace fuel text = text.
Proof. intros Hd Hs. destruct fuel; cbn; by rewrite Hd, Hs. Qed.

Lemma clean_loop_spec (fuel : nat) : forall text : list N,
  (length text <= fuel)%nat -> strip text = text ->
  let r := Text.clean_loop isspace fuel text in
  strip r = r
  /\ Text.wrapped double_quote r = false
  /\ Text.wrapped single_quote r = false
  /\ (length r <= length text)%nat.
Proof.
  induction fuel as [|fuel IH]; intros text Hlen Hs; cbn.
  - destruct text; [|cbn in Hlen; lia]. by cbn.
  - destruct (Text.wrapped double_quote text || Text.wrapped single_quote text)
      eqn:Hw.
    + assert (text <> []) as Hne.
      { apply orb_true_iff in Hw as [Hw|Hw]; by eapply wrapped_nonempty. }
      pose proof (inner_length text Hne) as Hin.
      pose proof (strip_length (Text.inner text)) as Hst.
      destruct (IH (strip (Text.inner text)) ltac:(lia) (strip_strip _))
        as (H1 & H2 & H3 & H4).
      repeat split; try done. lia.
    + apply orb_false_iff in Hw as [Hd Hq]. by repeat split.
Qed.

(** X3. What [clean_response] returns has no whitespace at its ends and
    is not wrapped in a pair of double or of single quotes; it is not
    longer than the text; and cleaning it again changes nothing. *)
Theorem clean_response_clean (text : list N) :
  let r := Text.clean_response isspace text in
  strip r = r
  /\ Text.wrapped double_quote r = false
  /\ Text.wrapped single_quote r = false
  /\ (length r <= length text)%nat
  /\ Text.clean_response isspace r = r.
Proof.
  unfold Text.clean_response.
  destruct (clean_loop_spec (length (strip text)) (strip text) (le_n _)
              (strip_strip _)) as (H1 & H2 & H3 & H4).
  cbv zeta in *. split; [done|]. split; [done|]. split; [done|]. split.
  - pose proof (strip_length text). lia.
  - rewrite H1. by apply clean_loop_unwrapped.
Qed.

Lemma after_colon_None (text : list N) :
  after_colon text = None <-> colon ∉ first_line text.
Proof.
  induction text as [|c text IH]; cbn.
  - split; [|done]. intros _ H. by apply elem_of_nil in H.
  - destruct (N.eqb_spec c colon) as [->|Hc].
    + split; [done|]. intros H. exfalso. apply H.
      change (colon =? newline)%N with false. apply list_elem_of_here.
    + destruct (N.eqb_spec c newline) as [->|Hn].
      * split; [|done]. intros _ H. by apply elem_of_nil in H.
      * rewrite IH. split.
        -- intros H Hin. apply elem_of_cons in Hin as [Hin|Hin]; by auto.
        -- intros H Hin. apply H. by apply list_elem_of_further.
Qed.

Lemma after_colon_Some (text rest : list N) :
  after_colon text = Some rest ->
  exists before, text = (before ++ colon :: rest)%list
    /\ (colon ∉ before) /\ (newline ∉ before).
Proof.
  revert rest. induction text as [|c text IH]; intros rest; cbn; [done|].
  destruct (N.eqb_spec c colon) as [->|Hc].
  - intros [= <-]. exists []. split; [done|].
    split; intros H; by apply elem_of_nil in H.
  - destruct (N.eqb_spec c newline) as [->|Hn]; [done|].
    intros Hrest. destruct (IH _ Hrest) as (before & -> & H1 & H2).
    exists (c :: before). split; [done|].
    split; intros H; apply elem_of_cons in H as [H|H]; by auto.
Qed.

(** X4. [remove_all_before_colon] cuts a piece off the front of the
    text and returns the rest.  Nothing is cut when the first line has
    no colon.  When it has one, the piece is the text up to the first
    colon (holding no colon and no line break before it), the colon,
    and all the whitespace that follows, so that the rest does not
    start with whitespace. *)
Theorem remove_all_before_colon_cuts (text : list N) :
  exists pre,
    text = (pre ++ Text.remove_all_before_colon isspace text)%list
    /\ (colon ∉ first_line text -> pre = [])
    /\ (colon ∈ first_line text ->
        exists before sp,
          pre = (before ++ colon :: sp)%list
          /\ (colon ∉ before) /\ (newline ∉ before)
          /\ Forall (fun c => isspace c = true) sp
          /\ lstrip (Text.remove_all_before_colon isspace text)
             = Text.remove_all_before_colon isspace text).
Proof.
  unfold Text.remove_all_before_colon.
  destruct (after_colon text) as [rest|] eqn:E.
  - destruct (after_colon_Some _ _ E) as (before & Ht & Hc & Hn).
    destruct (lstrip_split rest) as (sp & Hrest & Hsp).
    exists (before ++ colon :: sp)%list. split; [|split].
    + rewrite Ht at 1. rewrite Hrest at 1. by rewrite <- app_assoc.
    + intros Hno. apply after_colon_None in Hno. congruence.
    + intros _. exists before, sp. by rewrite lstrip_lstrip.
  - exists []. split; [done|]. split; [done|].
    intros Hin. by apply after_colon_None in E.
Qed.

Lemma remove_all_before_colon_length (text : list N) :
  (length (Text.remove_all_before_colon isspace text) <= length text)%nat.
Proof.
  unfold Text.remove_all_before_colon.
  destruct (after_colon text) as [rest|] eqn:E; [|done].
  destruct (after_colon_Some _ _ E) as (before & -> & _).
  destruct (lstrip_split rest) as (sp & Hrest & _).
  rewrite Hrest at 2. rewrite !length_app. cbn [length]. rewrite length_app. lia.
Qed.

(** X5. For every reply of the language model, [on_message] has at
    least one chunk to send, and every chunk it hands to
    [message.channel.send] is at most 1500 characters long, has no
    whitespace at its ends and is not wrapped in quotes. *)
Theorem reply_chunks_fit (reply : list N) :
  isspace space = true ->
  exists chunks,
    Text.reply_chunks isspace reply = Some chunks
    /\ chunks <> []
    /\ Forall (fun c => (length c <= 1500)%nat
                        /\ strip c = c
                        /\ Text.wrapped double_quote c = false
                        /\ Text.wrapped single_quote c = false) chunks.
Proof.
  intros Hsp. unfold Text.reply_chunks, Text.split_message.
  destruct (split_loop_spec 1500 (length reply) reply [] Hsp ltac:(lia) (le_n _))
    as (parts & -> & Hne & Hall & _). cbn.
  eexists. split; [done|]. split; [by destruct parts|].
  apply Forall_forall. intros c Hc.
  apply list_elem_of_In, in_map_iff in Hc as (p & <- & Hp).
  apply list_elem_of_In in Hp. rewrite Forall_forall in Hall.
  specialize (Hall p Hp).
  unfold Text.clean_response.
  destruct (clean_loop_spec
              (length (strip (Text.remove_all_before_colon isspace p)))
              (strip (Text.remove_all_before_colon isspace p)) (le_n _)
              (strip_strip _)) as (H1 & H2 & H3 & H4).
  pose proof (strip_length (Text.remove_all_before_colon isspace p)).
  pose proof (remove_all_before_colon_length p).
  split; [lia|done].
Qed.

End TextHelpers.

Lemma split_message_chunks_witness :
  exists parts,
    Text.split_message Text.Py_UNICODE_ISSPACE [97; 98; 32; 99; 100]%N 3
    = Some parts
    /\ parts <> []
    /\ Forall (fun p => Z.of_nat (length p) <= 3) parts
    /\ (Z.of_nat (length [97; 98; 32; 99; 100]%N) <= 3
        -> parts = [[97; 98; 32; 99; 100]%N])
    /\ Text.ink Text.Py_UNICODE_ISSPACE (concat parts) = [97; 98; 99; 100]%N.
Proof.
  apply (split_message_chunks Text.Py_UNICODE_ISSPACE [97; 98; 32; 99; 100]%N 3);
    [reflexivity|lia].
Defined.

Lemma split_message_limit_zero_loops_witness :
  Text.strip Text.Py_UNICODE_ISSPACE [97]%N = [97]%N
  /\ forall fuel parts,
       Text.split_loop Text.Py_UNICODE_ISSPACE fuel 0 [97]%N parts = None.
Proof.
  split; [reflexivity|].
  apply (split_message_limit_zero_loops Text.Py_UNICODE_ISSPACE [97]%N);
    [discriminate|reflexivity].
Defined.

Lemma remove_all_before_colon_cuts_witness :
  Text.remove_all_before_colon Text.Py_UNICODE_ISSPACE
    [83; 111; 117; 112; 121; 58; 32; 32; 104; 105]%N
  = [104; 105]%N.
Proof.
  destruct (remove_all_before_colon_cuts Text.Py_UNICODE_ISSPACE
              [83; 111; 117; 112; 121; 58; 32; 32; 104; 105]%N)
    as (pre & Ht & _ & Hcut).
  destruct Hcut as (before & sp & _ & _ & _ & _ & _).
  { cbn. do 5 apply list_elem_of_further. apply list_elem_of_here. }
  reflexivity.
Defined.

Lemma reply_chunks_fit_witness :
  exists chunks,
    Text.reply_chunks Text.Py_UNICODE_ISSPACE
      [83; 111; 117; 112; 121; 58; 32; 34; 104; 105; 34]%N = Some chunks
    /\ chunks <> []
    /\ Forall (fun c => (length c <= 1500)%nat
                        /\ Text.strip Text.Py_UNICODE_ISSPACE c = c
                        /\ Text.wrapped Text.double_quote c = false
                        /\ Text.wrapped Text.single_quote c = false) chunks.
Proof.
  apply (reply_chunks_fit Text.Py_UNICODE_ISSPACE). reflexivity.
Defined.

(** ** The uptime text *)

Section UptimeText.
Import Uptime.

Lemma pretty_N_go_head (x : N) : forall s : string,
  (0 < x)%N ->
  exists c s', pretty_N_go x s = String c s' /\ c <> "l"%char.
Proof.
  induction (N.lt_wf_0 x) as [x _ IH]. intros s Hx.
  rewrite pretty_N_go_step by done.
  destruct (decide (x `div` 10 = 0)%N) as [->|Hd].
  - rewrite pretty_N_go_0. eexists _, _. split; [done|].
    unfold pretty_N_char. by repeat case_match.
  - apply IH; [by apply N.div_lt|by apply N.neq_0_lt_0].
Qed.

Lemma counted_head (n : Z) (unit : string) :
  0 < n -> exists c s', counted n unit = String c s' /\ c <> "l"%char.
Proof.
  intros Hn. destruct n as [|p|p]; try lia. unfold counted.
  unfold pretty at 1, pretty_Z, pretty, pretty_positive, pretty, pretty_N.
  rewrite decide_False by done.
  destruct (pretty_N_go_head (N.pos p) "" ltac:(lia)) as (c & s' & -> & Hc).
  by eexists _, _.
Qed.

Lemma concat_head (p : string) (ps : list string) (c : ascii) (s' : string) :
  p = String c s' -> exists s'', String.concat ", " (p :: ps) = String c s''.
Proof. intros ->. destruct ps; cbn; by eexists. Qed.

Lemma uptime_fields (t : Z) :
  t / 86400 = (t / 60) / 1440
  /\ (t mod 86400) / 3600 = ((t / 60) mod 1440) / 60
  /\ ((t mod 86400) mod 3600) / 60 = (t / 60) mod 60.
Proof.
  pose proof (Z.div_mod t 86400 ltac:(lia)) as H1.
  pose proof (Z.mod_pos_bound t 86400 ltac:(lia)) as B1.
  pose proof (Z.div_mod (t mod 86400) 3600 ltac:(lia)) as H2.
  pose proof (Z.mod_pos_bound (t mod 86400) 3600 ltac:(lia)) as B2.
  pose proof (Z.div_mod ((t mod 86400) mod 3600) 60 ltac:(lia)) as H3.
  pose proof (Z.mod_pos_bound ((t mod 86400) mod 3600) 60 ltac:(lia)) as B3.
  set (d := t / 86400) in *. set (r := t mod 86400) in *.
  set (h := r / 3600) in *. set (r2 := r mod 3600) in *.
  set (mi := r2 / 60) in *. set (s := r2 mod 60) in *.
  assert (Hm : t / 60 = 1440 * d + 60 * h + mi).
  { symmetry. apply (Z.div_unique t 60 _ s); lia. }
  rewrite Hm.
  assert (Hd : (1440 * d + 60 * h + mi) / 1440 = d).
  { symmetry. apply (Z.div_unique _ 1440 _ (60 * h + mi)); lia. }
  assert (Hr : (1440 * d + 60 * h + mi) mod 1440 = 60 * h + mi).
  { symmetry. apply (Z.mod_unique _ 1440 d); lia. }
  rewrite Hd, Hr. split; [done|]. split.
  - apply (Z.div_unique _ 60 _ mi); lia.
  - apply (Z.mod_unique _ 60 (24 * d + h)); lia.
Qed.

(** X6. For an uptime that is not negative, [format_uptime] answers
    "less than a minute" exactly when the uptime is under 60 seconds. *)
Theorem format_uptime_less_than_a_minute (total_seconds : Z) :
  0 <= total_seconds ->
  (format_uptime total_seconds = "less than a minute" <-> total_seconds < 60).
Proof.
  intros Hpos. unfold format_uptime.
  destruct (uptime_fields total_seconds) as (-> & -> & ->).
  pose proof (Z.div_mod total_seconds 60 ltac:(lia)) as H1.
  pose proof (Z.mod_pos_bound total_seconds 60 ltac:(lia)) as B1.
  set (m := total_seconds / 60) in *.
  pose proof (Z.div_mod m 1440 ltac:(lia)) as H2.
  pose proof (Z.mod_pos_bound m 1440 ltac:(lia)) as B2.
  pose proof (Z.div_mod (m mod 1440) 60 ltac:(lia)) as H3.
  pose proof (Z.mod_pos_bound (m mod 1440) 60 ltac:(lia)) as B3.
  pose proof (Z.div_mod m 60 ltac:(lia)) as H4.
  pose proof (Z.mod_pos_bound m 60 ltac:(lia)) as B4.
  split.
  - intros Htext.
    destruct (Z.ltb_spec 0 (m / 1440)) as [Hd|Hd];
      [|destruct (Z.ltb_spec 0 ((m mod 1440) / 60)) as [Hh|Hh];
        [|destruct (Z.ltb_spec 0 (m mod 60)) as [Hmi|Hmi]]].
    + destruct (counted_head (m / 1440) "day" Hd) as (c & s' & Hc & Hl).
      cbn [app] in Htext.
      destruct (concat_head _ ((if 0 <? m mod 1440 / 60
                                then [counted (m mod 1440 / 60) "hour"] else [])
                               ++ (if 0 <? m mod 60
                                   then [counted (m mod 60) "minute"] else []))
                  _ _ Hc) as (s'' & Hs).
      rewrite Hs in Htext. by injection Htext.
    + destruct (counted_head _ "hour" Hh) as (c & s' & Hc & Hl).
      cbn [app] in Htext.
      destruct (concat_head _ (if 0 <? m mod 60
                               then [counted (m mod 60) "minute"] else [])
                  _ _ Hc) as (s'' & Hs).
      rewrite Hs in Htext. by injection Htext.
    + destruct (counted_head _ "minute" Hmi) as (c & s' & Hc & Hl).
      cbn [app] in Htext.
      destruct (concat_head _ [] _ _ Hc) as (s'' & Hs).
      rewrite Hs in Htext. by injection Htext.
    + lia.
  - intros Hlt. assert (m = 0) as -> by lia. done.
Qed.

Lemma format_uptime_less_than_a_minute_witness :
  format_uptime 59 = "less than a minute".
Proof.
  apply (format_uptime_less_than_a_minute 59); lia.
Defined.

(** X7. [format_uptime] does not look at the seconds within the
    minute: an uptime and the same uptime cut down to full minutes give
    the same text. *)
Theorem format_uptime_ignores_seconds (total_seconds : Z) :
  format_uptime total_seconds = format_uptime (60 * (total_seconds / 60)).
Proof.
  unfold format_uptime.
  destruct (uptime_fields total_seconds) as (-> & -> & ->).
  destruct (uptime_fields (60 * (total_seconds / 60))) as (-> & -> & ->).
  replace (60 * (total_seconds / 60) / 60) with (total_seconds / 60); [done|].
  rewrite Z.mul_comm, Z.div_mul; lia.
Qed.

End UptimeText.

(** ** The rate limiter over many calls *)

Section RateRuns.
Import RateLimit.

Variable OWNER_IDS : list Z.
Variable MAX_INTERACTIONS_PER_MINUTE : Z.
Variable EXEMPT_ROLES : gset string.
Variable lower : string -> string.

#[local] Abbreviation cooldown :=
  (universal_cooldown_check OWNER_IDS MAX_INTERACTIONS_PER_MINUTE
     EXEMPT_ROLES lower).
#[local] Abbreviation calls :=
  (Cooldown.calls OWNER_IDS MAX_INTERACTIONS_PER_MINUTE EXEMPT_ROLES lower).

Lemma elem_of_prune (now ts : Q) (l : list Q) :
  ts ∈ prune now l <-> ts ∈ l /\ (now - ts < 60)%Q.
Proof. unfold prune. by rewrite !list_elem_of_In, filter_In, Qltb_lt. Qed.

(** X8. A call changes no window but the caller's, and a caller who is
    no owner is left with a window that holds only timestamps less than
    60 seconds old. *)
Theorem cooldown_touches_own_window (u : user) (now : Q)
    (tbl : gmap Z (list Q)) :
  (forall k, k <> id u -> (cooldown u now tbl).2 !! k = tbl !! k)
  /\ (id u ∉ OWNER_IDS ->
      forall ts, ts ∈ window (cooldown u now tbl).2 (id u) ->
                 (now - ts < 60)%Q).
Proof.
  unfold universal_cooldown_check. split.
  - intros k Hk. case_bool_decide; [done|].
    rewrite window_insert, insert_insert_eq.
    destruct (_ && _); cbn; by rewrite lookup_insert_ne.
  - intros Hout ts. rewrite bool_decide_eq_false_2 by done.
    rewrite window_insert, insert_insert_eq.
    destruct (_ && _); cbn; rewrite window_insert.
    + rewrite elem_of_prune. by intros [_ ?].
    + rewrite elem_of_app, elem_of_prune, list_elem_of_singleton.
      intros [[_ ?]| ->]; [done|].
      apply Qltb_lt. unfold Qltb. apply negb_true_iff, not_true_iff_false.
      rewrite Qle_bool_iff. lra.
Qed.

Lemma prune_prune (t0 t : Q) (l : list Q) :
  (t0 <= t)%Q -> prune t (prune t0 l) = prune t l.
Proof.
  intros Hle. unfold prune. induction l as [|a l IH]; [done|]. cbn.
  destruct (Qltb (t0 - a) 60) eqn:E0; cbn; rewrite IH; [done|].
  assert (Qltb (t - a) 60 = false) as ->; [|done].
  apply Qltb_ge. apply Qltb_ge in E0. lra.
Qed.

Lemma prune_snoc_now (t : Q) (l : list Q) :
  (prune t l ++ [t])%list = prune t (l ++ [t]).
Proof.
  unfold prune. rewrite List.filter_app. cbn.
  assert (Qltb (t - t) 60 = true) as ->; [|done].
  apply Qltb_lt. lra.
Qed.

Lemma prune_length (t : Q) (l : list Q) : (length (prune t l) <= length l)%nat.
Proof. apply List.filter_length_le. Qed.

Lemma last_cons {A} (l : list A) : forall a d : A,
  List.last (a :: l) d = List.last l a.
Proof.
  induction l as [|b l IH]; intros a d; [done|].
  change (List.last (a :: b :: l) d) with (List.last (b :: l) d).
  by rewrite !IH.
Qed.

Lemma calls_window (u : user) :
  id u ∉ OWNER_IDS ->
  has_exempt_role EXEMPT_ROLES lower u = false ->
  forall (times : list Q) (tbl : gmap Z (list Q)) (through0 : list Q) (t0 : Q),
    window tbl (id u) = prune t0 through0 ->
    Z.of_nat (length (window tbl (id u))) <= Z.max 0 MAX_INTERACTIONS_PER_MINUTE ->
    StronglySorted Qle (t0 :: times) ->
    window (calls u times tbl).2 (id u)
    = prune (List.last times t0) (through0 ++ (calls u times tbl).1)
    /\ Z.of_nat (length (window (calls u times tbl).2 (id u)))
       <= Z.max 0 MAX_INTERACTIONS_PER_MINUTE.
Proof.
  intros Hout Hex times.
  induction times as [|t times IH]; intros tbl through0 t0 Hw Hlen Hsorted.
  - cbn. by rewrite app_nil_r.
  - apply StronglySorted_cons in Hsorted as [Hall Hsorted].
    apply Forall_cons in Hall as [Ht0 Hall].
    rewrite last_cons. cbn [Cooldown.calls].
    rewrite (check_plain _ _ _ _ _ _ _ Hout Hex), Hw, (prune_prune _ _ _ Ht0).
    pose proof (prune_length t (prune t0 through0)) as Hpl.
    rewrite (prune_prune _ _ _ Ht0), <- Hw in Hpl.
    destruct (Z.leb_spec MAX_INTERACTIONS_PER_MINUTE
                (Z.of_nat (length (prune t through0)))) as [Hfull|Hroom].
    + destruct (IH (<[id u := prune t through0]> tbl) through0 t)
        as [IH1 IH2]; [by rewrite window_insert|rewrite window_insert; lia|done|].
      destruct (calls u times _) as [through tbl'] eqn:E. by cbn in *.
    + destruct (IH (<[id u := (prune t through0 ++ [t])%list]> tbl)
                  (through0 ++ [t])%list t) as [IH1 IH2].
      * by rewrite window_insert, prune_snoc_now.
      * rewrite window_insert, length_app. cbn. lia.
      * done.
      * destruct (calls u times _) as [through tbl'] eqn:E. cbn in *.
        by rewrite <- app_assoc in IH1.
Qed.

(** X9. A user who is neither an owner nor exempt starts with an empty
    window and calls any number of times, the clock never going back.
    At the time of every call, the calls that went through within the
    last 60 seconds, that call included, are at most
    [MAX_INTERACTIONS_PER_MINUTE] (none when the limit is not
    positive). *)
Theorem at_most_max_calls_per_minute (u : user) (times : list Q) (t : Q)
    (tbl : gmap Z (list Q)) :
  id u ∉ OWNER_IDS ->
  has_exempt_role EXEMPT_ROLES lower u = false ->
  window tbl (id u) = [] ->
  StronglySorted Qle (times ++ [t]) ->
  Z.of_nat (length (prune t (calls u (times ++ [t]) tbl).1))
  <= Z.max 0 MAX_INTERACTIONS_PER_MINUTE.
Proof.
  intros Hout Hex Hempty Hsorted.
  destruct (times ++ [t])%list as [|x rest] eqn:E.
  { by destruct times. }
  destruct (calls_window u Hout Hex (x :: rest) tbl [] x) as [H1 H2].
  - by rewrite Hempty.
  - rewrite Hempty. cbn. lia.
  - apply StronglySorted_cons. split; [|done].
    apply StronglySorted_cons in Hsorted as [Hall _].
    constructor; [apply Qle_refl|done].
  - assert (List.last (x :: rest) x = t) as Hlast.
    { rewrite <- E. apply last_last. }
    rewrite Hlast in H1. cbn [app] in H1. by rewrite <- H1.
Qed.

End RateRuns.

Lemma cooldown_touches_own_window_witness :
  RateLimit.window
    (RateLimit.universal_cooldown_check [1] 4 ∅ (fun s => s)
       (RateLimit.mk_user 7 None) 100
       {[7 := [30; 95]%Q; 8 := [10%Q]]}).2 7
  = [95; 100]%Q
  /\ (100 - 95 < 60)%Q.
Proof.
  assert (Hw : RateLimit.window
                 (RateLimit.universal_cooldown_check [1] 4 ∅ (fun s => s)
                    (RateLimit.mk_user 7 None) 100
                    {[7 := [30; 95]%Q; 8 := [10%Q]]}).2 7
               = [95; 100]%Q) by (vm_compute; reflexivity).
  split; [exact Hw|].
  destruct (cooldown_touches_own_window [1] 4 ∅ (fun s => s)
              (RateLimit.mk_user 7 None) 100
              {[7 := [30; 95]%Q; 8 := [10%Q]]}) as [_ H].
  apply H.
  - cbn. intros Hin. apply elem_of_cons in Hin as [Hin|Hin]; [done|].
    by apply elem_of_nil in Hin.
  - change (RateLimit.id (RateLimit.mk_user 7 None)) with 7.
    rewrite Hw. apply list_elem_of_here.
Defined.


Lemma at_most_max_calls_per_minute_witness :
  let u := RateLimit.mk_user 7 None in
  (Cooldown.calls [1] 2 ∅ (fun s => s) u [0; 1; 2; 59; 60; 61]%Q ∅).1
  = [0; 1; 60; 61]%Q
  /\ Z.of_nat (length (RateLimit.prune 61
       (Cooldown.calls [1] 2 ∅ (fun s => s) u [0; 1; 2; 59; 60; 61]%Q ∅).1))
     <= Z.max 0 2.
Proof.
  intros u. split; [reflexivity|].
  apply (at_most_max_calls_per_minute [1] 2 ∅ (fun s => s) u
           [0; 1; 2; 59; 60]%Q 61 ∅).
  - cbn. intros Hin. apply elem_of_cons in Hin as [Hin|Hin]; [done|].
    by apply elem_of_nil in Hin.
  - reflexivity.
  - reflexivity.
  - repeat (apply StronglySorted_cons; split;
            [repeat (constructor; [by vm_compute|])|]); constructor.
Defined.

(** ** The context assembler: what is left out *)

Section AssemblerFilters.
Import Context.

Variable time_time : nat -> Q.
Variable extract_url_content : nat -> string -> option string.
Variable extract_urls : string -> list string.
Variable is_blank : string -> bool.

#[local] Abbreviation body :=
  (process_message time_time extract_url_content extract_urls is_blank).
#[local] Abbreviation loop :=
  (history_loop time_time extract_url_content extract_urls is_blank).

#[local] Abbreviation pairs := ContextInvariant.pairs.
#[local] Abbreviation tidy := ContextInvariant.tidy.

Lemma append_inv_head (p s1 s2 : string) : p ++ s1 = p ++ s2 -> s1 = s2.
Proof.
  induction p as [|c p IH]; [done|].
  change (String c (p ++ s1) = String c (p ++ s2) -> s1 = s2).
  intros [= H]. by apply IH.
Qed.

(** What one round of the loop does to the two lists and to the set of
    keys seen. *)
Lemma process_message_round image_history current_message_id (a : acc)
    (msg : message) :
  topic_first a ->
  let a' := body image_history current_message_id a msg in
  topic_first a'
  /\ ((pairs a' = pairs a /\ seen_messages a' = seen_messages a)
      \/ (skipped current_message_id msg = false
          /\ exists message_content,
               pairs a'
               = (pairs a
                  ++ [(msg, mk_entry
                              (if author_is_bot msg then "assistant" else "user")
                              (author_name msg ++ ": " ++ message_content))])%list
               /\ ((author_name msg ++ ":" ++ message_content) ∉ seen_messages a)
               /\ seen_messages a'
                  = {[author_name msg ++ ":" ++ message_content]}
                    ∪ seen_messages a)).
Proof.
  intros Htf. pose proof Htf as [Hle Hbg]. unfold process_message.
  destruct (skipped current_message_id msg) eqn:Hskip; [by auto|].
  destruct (process_urls _ _ _ _ _) as [w url_contents].
  match goal with
  | |- context [bool_decide ((author_name msg ++ ":" ++ ?mc) ∈ _)] =>
      set (message_content := mc)
  end.
  case_bool_decide as Hseen; [by auto|].
  destruct (Nat.ltb_spec (length (current_topic_messages a)) 5) as [Hlt|Hge];
    cbv zeta; (split; [split; cbn; [|intros Hfew]|right; split; [done|];
                       exists message_content; unfold ContextInvariant.pairs;
                       cbn]).
  - rewrite length_app. cbn. lia.
  - by apply Hbg.
  - by rewrite (Hbg Hlt), !app_nil_r.
  - done.
  - lia.
  - by rewrite app_assoc.
Qed.

Lemma tidy_round image_history current_message_id (history : list message)
    (a : acc) (msg : message) :
  msg ∈ history ->
  tidy current_message_id history a ->
  tidy current_message_id history (body image_history current_message_id a msg).
Proof.
  intros Hmsg [Htf Hfrom Hseen Hnd].
  destruct (process_message_round image_history current_message_id a msg Htf)
    as (Htf' & [[Hp Hs]|(Hskip & mc & Hp & Hnew & Hs)]).
  - split; [done|..]; rewrite ?Hp, ?Hs; done.
  - split; [done|..]; rewrite Hp.
    + intros m e Hin. apply elem_of_app in Hin as [Hin|Hin]; [by eapply Hfrom|].
      by apply list_elem_of_singleton in Hin as [= -> ->].
    + intros m e Hin. rewrite Hs. apply elem_of_app in Hin as [Hin|Hin].
      * destruct (Hseen m e Hin) as (mc' & He & Hk). exists mc'.
        split; [done|]. apply elem_of_union. by right.
      * apply list_elem_of_singleton in Hin as [= -> ->]. exists mc.
        split; [done|]. apply elem_of_union. left. by apply elem_of_singleton.
    + rewrite map_app. apply NoDup_app. split; [done|]. split; [|by apply NoDup_singleton].
      intros [name text] Hin Hin'. cbn in Hin'.
      apply list_elem_of_singleton in Hin' as [= -> ->].
      apply list_elem_of_In, in_map_iff in Hin as ([m e] & [= Hname Htext] & Hin).
      apply list_elem_of_In in Hin.
      destruct (Hseen m e Hin) as (mc' & He & Hk). cbn in *.
      rewrite He, Hname in Htext. apply append_inv_head in Htext.
      apply (append_inv_head ": ") in Htext. subst mc'.
      rewrite Hname in Hk. done.
Qed.

Lemma tidy_loop image_history current_message_id (history : list message) :
  forall (done_ : list message) (a : acc),
    tidy current_message_id (done_ ++ history) a ->
    tidy current_message_id (done_ ++ history)
      (foldl (body image_history current_message_id) a history).
Proof.
  induction history as [|msg history IH]; intros done_ a Ha; [done|]. cbn.
  replace (done_ ++ msg :: history)%list with ((done_ ++ [msg]) ++ history)%list
    in * by by rewrite <- app_assoc.
  apply IH. apply tidy_round; [|done].
  apply elem_of_app. left. apply elem_of_app. right. apply list_elem_of_here.
Qed.

(** X10. Every entry of the result comes from a message of the fetched
    window that is no command (its content does not start with "!"), is
    not an announcement of a generated image by the bot itself, and is
    not the message being answered (when its id is given and not 0). *)
Theorem context_leaves_out (history : list message)
    (current_message_id : option Z) (w : world)
    (image_history : gmap Z img_info) (m : message) (e : entry) :
  (m, e) ∈ kept (loop image_history current_message_id history w) ->
  m ∈ history
  /\ startswith "!" (content m) = false
  /\ (author_is_bot m = true -> contains "Generated Image" (content m) = false)
  /\ (forall i, current_message_id = Some i -> i <> 0 -> msg_id m <> i).
Proof.
  intros Hin.
  destruct (tidy_loop image_history current_message_id history []
              (mk_acc w ∅ [] [])) as [_ Hfrom _ _].
  { split; [split; cbn; [lia|done]|..].
    - intros ? ? H. by apply elem_of_nil in H.
    - intros ? ? H. by apply elem_of_nil in H.
    - constructor. }
  unfold kept in Hin. apply list_elem_of_In, in_rev, list_elem_of_In in Hin.
  destruct (Hfrom m e Hin) as [Hm Hskip]. split; [done|].
  unfold skipped in Hskip.
  apply orb_false_iff in Hskip as [Hskip Hid].
  apply orb_false_iff in Hskip as [Hbang Hgen].
  split; [done|]. split.
  - intros Hbot. by rewrite Hbot in Hgen.
  - intros i -> Hi Heq. rewrite Heq, Z.eqb_refl, andb_true_r in Hid.
    apply negb_false_iff in Hid. by apply Z.eqb_eq in Hid.
Qed.

(** X11. No two entries of the result have both the same author and the
    same content: of messages that repeat an utterance of the same
    author only one is kept. *)
Theorem context_has_no_repeats (history : list message)
    (current_message_id : option Z) (w : world)
    (image_history : gmap Z img_info) :
  NoDup (map (fun p : message * entry => (author_name p.1, entry_content p.2))
             (kept (loop image_history current_message_id history w))).
Proof.
  destruct (tidy_loop image_history current_message_id history []
              (mk_acc w ∅ [] [])) as [_ _ _ Hnd].
  { split; [split; cbn; [lia|done]|..].
    - intros ? ? H. by apply elem_of_nil in H.
    - intros ? ? H. by apply elem_of_nil in H.
    - constructor. }
  unfold kept. rewrite map_rev.
  by apply NoDup_ListNoDup, List.NoDup_rev, NoDup_ListNoDup.
Qed.

(** X12. When [fetch_recent_messages] returns, the URL cache holds no
    entry that was more than 3600 seconds old at the clock reading of
    its clean-up pass, and the image descriptions are those held
    before that are not more than 3600 seconds old at [utcnow]: the
    call adds none. *)
Theorem context_build_purges (history : list message)
    (current_message_id : option Z) (utcnow : Q) (w : world)
    (image_history : gmap Z img_info) :
  let result :=
    fetch_recent_messages time_time extract_url_content extract_urls is_blank
      history current_message_id utcnow w image_history in
  let clock :=
    time_time (ticks (the_world (loop image_history current_message_id history w))) in
  (forall url e, url_cache result.1.2 !! url = Some e ->
                 ~ (3600 < clock - e.2)%Q)
  /\ (forall msg_id info,
        result.2 !! msg_id = Some info
        <-> image_history !! msg_id = Some info
            /\ ~ (3600 < utcnow - timestamp info)%Q).
Proof.
  cbn. split.
  - intros url e He. by apply purge_url_cache_lookup in He as [_ ?].
  - intros msg_id info. apply purge_image_history_lookup.
Qed.

End AssemblerFilters.

Lemma context_leaves_out_witness :
  let m1 := Context.mk_message 11 30 "ann" false "third" in
  let m3 := Context.mk_message 9 10 "bob" false "!flux first" in
  let m4 := Context.mk_message 8 5 "bob" false "zeroth" in
  Context.startswith "!" (Context.content m4) = false
  /\ (forall i : Z, Some 11 = Some i -> i <> 0 -> Context.msg_id m4 <> i).
Proof.
  intros m1 m3 m4.
  destruct (context_leaves_out (fun _ => 100%Q) (fun _ _ => None) (fun _ => [])
              (fun s => String.eqb s "") [m1; m3; m4] (Some 11)
              (Context.mk_world ∅ 0) ∅ m4
              (Context.mk_entry "user" "bob: zeroth")) as (_ & H1 & _ & H2).
  - vm_compute. apply list_elem_of_here.
  - by split.
Defined.

Lemma context_build_purges_witness :
  Context.url_cache
    (Context.fetch_recent_messages (fun _ => 4000%Q) (fun _ _ => None)
       (fun _ => []) (fun s => String.eqb s "") [] None 4000
       (Context.mk_world
          {["http://a.example" := (Some "A", 1000%Q);
            "http://b.example" := (Some "B", 0%Q)]} 0) ∅).1.2
    !! "http://a.example" = Some (Some "A", 1000%Q)
  /\ ~ (3600 < 4000 - 1000)%Q.
Proof.
  assert (He : Context.url_cache
                 (Context.fetch_recent_messages (fun _ => 4000%Q)
                    (fun _ _ => None) (fun _ => [])
                    (fun s => String.eqb s "") [] None 4000
                    (Context.mk_world
                       {["http://a.example" := (Some "A", 1000%Q);
                         "http://b.example" := (Some "B", 0%Q)]} 0) ∅).1.2
                 !! "http://a.example" = Some (Some "A", 1000%Q))
    by (vm_compute; reflexivity).
  split; [exact He|].
  exact (proj1 (context_build_purges (fun _ => 4000%Q) (fun _ _ => None)
                  (fun _ => []) (fun s => String.eqb s "") [] None 4000
                  (Context.mk_world
                     {["http://a.example" := (Some "A", 1000%Q);
                       "http://b.example" := (Some "B", 0%Q)]} 0) ∅)
           "http://a.example" (Some "A", 1000%Q) He).
Defined.

(** ** The statistics store: errors and what is left alone *)

Section StatsEdges.
Import Stats.

Lemma update_Ok (get_user : option string) (user_id : Z) (stat : string)
    (server_id : option Z) (stats stats' : gmap string user_data) :
  update get_user user_id stat server_id stats = Ok stats' ->
  exists u0 srv,
    init_user (pretty user_id) stats !! pretty user_id = Some u0
    /\ stats'
       = <[pretty user_id :=
             mk_user_data (username (set_username get_user u0)) (Some srv)
               (flat u0)]> (init_user (pretty user_id) stats).
Proof.
  unfold update, item.
  destruct (init_user (pretty user_id) stats !! pretty user_id) as [u0|] eqn:E;
    [|done].
  rewrite bind_Ok.
  assert (Hu : username (init_server server_id (set_username get_user u0))
               = username (set_username get_user u0)
               /\ flat (init_server server_id (set_username get_user u0))
                  = flat u0).
  { unfold init_server, set_username.
    destruct (supplied server_id), get_user; done. }
  destruct Hu as [-> ->].
  destruct (servers (init_server server_id (set_username get_user u0)));
    [|done].
  rewrite bind_Ok. destruct (bump_buckets _ _ _) as [srv|] eqn:Eb; [|done].
  rewrite bind_Ok. intros [= <-]. by exists u0, srv.
Qed.

Lemma init_user_other (uid k : string) (stats : gmap string user_data) :
  k <> uid -> init_user uid stats !! k = stats !! k.
Proof.
  intros Hne. unfold init_user. destruct (stats !! uid); [done|].
  by rewrite lookup_insert_ne.
Qed.

Lemma increment_user_stat_raises (get_user : option string) (user_id : Z)
    (stat : string) (server_id : option Z) (d : disk) (e : exn) :
  locked d = false ->
  update get_user user_id stat server_id (stored d) = Raise e ->
  increment_user_stat get_user user_id stat server_id d
  = Some (Raise e,
          mk_disk (file d) false (events d ++ [Acquire; ReadFile; Release])%list).
Proof.
  intros Hfree Hup. unfold increment_user_stat.
  by rewrite (read_user_stats_spec d Hfree), Hup.
Qed.

Lemma zero_bucket_unknown (stat : string) :
  ~ known stat -> zero_bucket !! stat = None.
Proof.
  intros Hun. unfold zero_bucket, known in *.
  rewrite !lookup_insert_ne, lookup_singleton_ne; [done|..];
    intros <-; apply Hun; repeat constructor.
Qed.

Lemma bump_buckets_missing (stat : string) (server_id : option Z)
    (srv : gmap string (gmap string Z)) (g : gmap string Z) :
  srv !! "global" = Some g -> g !! stat = None ->
  bump_buckets stat server_id srv = Raise (KeyError stat).
Proof.
  intros Hg Hs. unfold bump_buckets. rewrite (item_Some _ _ _ Hg), bind_Ok.
  unfold bump, item. by rewrite Hs.
Qed.

(** X13. A statistic that the user's global bucket does not hold makes
    [increment_user_stat] raise [KeyError] for the statistic: for a user
    on file whose global bucket lacks it, and for a new user when it is
    not one of the three statistics.  The file is read and is not
    written. *)
Theorem increment_unknown_stat (get_user : option string) (user_id : Z)
    (stat : string) (server_id : option Z) (d : disk) :
  locked d = false ->
  match stored d !! pretty user_id with
  | Some u => exists srv g, servers u = Some srv
                            /\ srv !! "global" = Some g /\ g !! stat = None
  | None => ~ known stat
  end ->
  increment_user_stat get_user user_id stat server_id d
  = Some (Raise (KeyError stat),
          mk_disk (file d) false (events d ++ [Acquire; ReadFile; Release])%list).
Proof.
  intros Hfree Hcase. apply increment_user_stat_raises; [done|].
  unfold update, init_user.
  destruct (stored d !! pretty user_id) as [u|] eqn:Hu.
  - destruct Hcase as (srv & g & Hsrv & Hg & Hstat).
    rewrite (item_Some _ _ _ Hu), bind_Ok.
    assert (exists srv1, servers (init_server server_id (set_username get_user u))
                         = Some srv1 /\ srv1 !! "global" = Some g)
      as (srv1 & -> & Hg1).
    { unfold init_server, set_username.
      destruct (supplied server_id) as [z|].
      - assert (servers (match get_user with
                          | Some name => mk_user_data (Some name) (servers u) (flat u)
                          | None => u
                          end) = Some srv) as -> by by destruct get_user.
        cbn [default from_option servers id]. destruct (srv !! pretty z) eqn:Ez.
        + by exists srv.
        + eexists. split; [done|]. rewrite lookup_insert_ne; [done|].
          apply pretty_Z_ne_global.
      - exists srv. by destruct get_user. }
    rewrite bind_Ok. unfold init_global. rewrite Hg1.
    by rewrite (bump_buckets_missing _ _ _ _ Hg1 Hstat).
  - rewrite (item_Some _ _
               (mk_user_data (Some "Unknown") (Some {["global" := zero_bucket]}) ∅))
      by apply lookup_insert_eq.
    rewrite bind_Ok.
    assert (exists srv1, servers (init_server server_id
                           (set_username get_user
                              (mk_user_data (Some "Unknown")
                                 (Some {["global" := zero_bucket]}) ∅)))
                         = Some srv1 /\ srv1 !! "global" = Some zero_bucket)
      as (srv1 & -> & Hg1).
    { unfold init_server, set_username.
      destruct (supplied server_id) as [z|]; destruct get_user; cbn;
        try (eexists; split; [done|]; by rewrite lookup_singleton_eq).
      all: rewrite lookup_singleton_ne by (intros H; symmetry in H;
                                           by apply pretty_Z_ne_global in H).
      all: eexists; split; [done|].
      all: rewrite lookup_insert_ne by apply pretty_Z_ne_global.
      all: by rewrite lookup_singleton_eq. }
    rewrite bind_Ok. unfold init_global. rewrite Hg1.
    by rewrite (bump_buckets_missing _ _ _ _ Hg1 (zero_bucket_unknown _ Hcase)).
Qed.

(** X14. On a file in which the user has no ['servers'] while another
    user has, an increment without a server id (or with the id 0)
    raises [KeyError] for ['servers'], and the file is not written. *)
Theorem increment_mixed_format (get_user : option string) (user_id : Z)
    (stat : string) (server_id : option Z) (d : disk) (u : user_data) :
  locked d = false ->
  stored d !! pretty user_id = Some u ->
  servers u = None ->
  supplied server_id = None ->
  increment_user_stat get_user user_id stat server_id d
  = Some (Raise (KeyError "servers"),
          mk_disk (file d) false (events d ++ [Acquire; ReadFile; Release])%list).
Proof.
  intros Hfree Hu Hsrv Hsid. apply increment_user_stat_raises; [done|].
  unfold update, init_user. rewrite Hu, (item_Some _ _ _ Hu), bind_Ok.
  unfold init_server. rewrite Hsid.
  assert (servers (set_username get_user u) = None) as ->; [|done].
  by destruct get_user.
Qed.

(** X15. When the file holds nothing (it is empty or cannot be
    decoded), an increment of one of the three statistics writes a store
    that holds the calling user alone, under the name the bot knows or
    "Unknown". *)
Theorem increment_starts_afresh (get_user : option string) (user_id : Z)
    (stat : string) (server_id : option Z) (d : disk) :
  locked d = false -> known stat -> stored d = ∅ ->
  exists d' stats' u',
    increment_user_stat get_user user_id stat server_id d = Some (Ok tt, d')
    /\ file d' = Some stats'
    /\ stats' = {[pretty user_id := u']}
    /\ username u' = Some (default "Unknown" get_user).
Proof.
  intros Hfree Hknown Hempty.
  assert (Hwf : well_formed (stored d)).
  { rewrite Hempty. intros uid u Hu. by apply lookup_empty_Some in Hu. }
  destruct (update_spec get_user user_id stat server_id (stored d) Hknown Hwf)
    as (stats' & Hup & _).
  destruct (update_Ok _ _ _ _ _ _ Hup) as (u0 & srv & Hu0 & Hstats).
  unfold increment_user_stat.
  rewrite (read_user_stats_spec d Hfree), Hup, write_user_stats_spec by done.
  eexists _, stats', _. split; [done|]. split; [done|].
  rewrite Hempty in *. unfold init_user in *. rewrite lookup_empty in *.
  rewrite lookup_insert_eq in Hu0. injection Hu0 as <-.
  split; [by rewrite Hstats, insert_insert_eq, insert_empty|].
  by destruct get_user.
Qed.

(** X16. An increment of one of the three statistics on a store in the
    new format leaves the entries of all other users as they are, and
    gives the user the name the bot knows, or else keeps the name on
    file ("Unknown" for a user not on file). *)
Theorem increment_leaves_others (get_user : option string) (user_id : Z)
    (stat : string) (server_id : option Z) (d : disk) :
  locked d = false -> known stat -> well_formed (stored d) ->
  exists d' u',
    increment_user_stat get_user user_id stat server_id d = Some (Ok tt, d')
    /\ (forall uid, uid <> pretty user_id -> stored d' !! uid = stored d !! uid)
    /\ stored d' !! pretty user_id = Some u'
    /\ username u'
       = match get_user with
         | Some name => Some name
         | None =>
             match stored d !! pretty user_id with
             | Some u => username u
             | None => Some "Unknown"
             end
         end.
Proof.
  intros Hfree Hknown Hwf.
  destruct (update_spec get_user user_id stat server_id (stored d) Hknown Hwf)
    as (stats' & Hup & Hwf' & _).
  destruct (update_Ok _ _ _ _ _ _ Hup) as (u0 & srv & Hu0 & Hstats).
  unfold increment_user_stat.
  rewrite (read_user_stats_spec d Hfree), Hup, write_user_stats_spec by done.
  pose (d' := mk_disk (Some stats') false
                ((events d ++ [Acquire; ReadFile; Release])
                 ++ [Acquire; WriteFile; Release])).
  assert (Hst : stored d' = stats').
  { unfold stored. cbn. by apply decode_well_formed. }
  exists d'. eexists. split; [done|].
  rewrite Hst, Hstats. split; [|split].
  - intros uid Hne. rewrite lookup_insert_ne by done. by apply init_user_other.
  - by rewrite lookup_insert_eq.
  - cbn. unfold init_user in Hu0. destruct (stored d !! pretty user_id) as [u|] eqn:E.
    + rewrite E in Hu0. injection Hu0 as <-. by destruct get_user.
    + rewrite lookup_insert_eq in Hu0. injection Hu0 as <-. by destruct get_user.
Qed.

(** X17. A file in the old format (no user has ['servers']) is read as
    a store in the new format: every user keeps the name on file
    ("Unknown" if there is none), and the three counters are found in
    the global bucket, a counter missing from the file as 0. *)
Theorem old_format_is_migrated (d : disk) (data : gmap string user_data)
    (user_id : Z) (u : user_data) (stat : string) :
  file d = Some data ->
  (forall uid u, data !! uid = Some u -> servers u = None) ->
  data !! pretty user_id = Some u ->
  known stat ->
  well_formed (stored d)
  /\ counter (stored d) user_id "global" stat = default 0 (flat u !! stat)
  /\ username <$> stored d !! pretty user_id
     = Some (Some (default "Unknown" (username u))).
Proof.
  intros Hfile Hold Hu Hknown. unfold stored. rewrite Hfile.
  destruct (decode_old_format data) as [Hdec Hwf]; [|done|].
  { intros ->. by apply lookup_empty_Some in Hu. }
  split; [done|]. rewrite Hdec. unfold counter.
  rewrite lookup_fmap, Hu. cbn. split; [|done].
  rewrite lookup_singleton_eq. cbn. unfold known in Hknown.
  apply elem_of_cons in Hknown as [->|Hknown]; [by rewrite lookup_insert_eq|].
  apply elem_of_cons in Hknown as [->|Hknown].
  { rewrite lookup_insert_ne, lookup_insert_eq; done. }
  apply elem_of_cons in Hknown as [->|Hknown]; [|by apply elem_of_nil in Hknown].
  rewrite !lookup_insert_ne, lookup_singleton_eq; done.
Qed.

End StatsEdges.

Lemma increment_unknown_stat_witness :
  Stats.increment_user_stat None 7 "likes" (Some 42) (Stats.mk_disk None false [])
  = Some (Raise (KeyError "likes"),
          Stats.mk_disk None false
            [Stats.Acquire; Stats.ReadFile; Stats.Release]).
Proof.
  apply (increment_unknown_stat None 7 "likes" (Some 42)
           (Stats.mk_disk None false [])); [reflexivity|].
  change (~ Stats.known "likes"). unfold Stats.known.
  intros H. repeat (apply elem_of_cons in H as [H|H]; [discriminate H|]).
  by apply elem_of_nil in H.
Defined.

Lemma increment_mixed_format_witness :
  Stats.increment_user_stat (Some "ann") 7 "mentions" None
    (Stats.mk_disk
       (Some (<["7" := Stats.mk_user_data None None {["mentions" := 3]}]>
                {["5" := Stats.mk_user_data (Some "bob") (Some ∅) ∅]}))
       false [])
  = Some (Raise (KeyError "servers"),
          Stats.mk_disk
            (Some (<["7" := Stats.mk_user_data None None {["mentions" := 3]}]>
                     {["5" := Stats.mk_user_data (Some "bob") (Some ∅) ∅]}))
            false [Stats.Acquire; Stats.ReadFile; Stats.Release]).
Proof.
  apply (increment_mixed_format (Some "ann") 7 "mentions" None
           (Stats.mk_disk
              (Some (<["7" := Stats.mk_user_data None None {["mentions" := 3]}]>
                       {["5" := Stats.mk_user_data (Some "bob") (Some ∅) ∅]}))
              false [])
           (Stats.mk_user_data None None {["mentions" := 3]}));
    [reflexivity|by vm_compute|reflexivity|reflexivity].
Defined.

Lemma increment_starts_afresh_witness :
  exists d' stats' u',
    Stats.increment_user_stat None 7 "mentions" (Some 42)
      (Stats.mk_disk None false []) = Some (Ok tt, d')
    /\ Stats.file d' = Some stats'
    /\ stats' = {[pretty 7 := u']}
    /\ Stats.username u' = Some (default "Unknown" None).
Proof.
  apply (increment_starts_afresh None 7 "mentions" (Some 42)
           (Stats.mk_disk None false [])); [reflexivity| |reflexivity].
  unfold Stats.known.
  apply list_elem_of_further, list_elem_of_further, list_elem_of_here.
Defined.

Lemma increment_leaves_others_witness :
  exists d' u',
    Stats.increment_user_stat (Some "ann") 7 "mentions" None
      (Stats.mk_disk
         (Some {["5" := Stats.mk_user_data (Some "bob")
                          (Some {["global" := Stats.zero_bucket]}) ∅]})
         false []) = Some (Ok tt, d')
    /\ (forall uid, uid <> pretty 7 ->
          Stats.stored d' !! uid
          = Stats.stored
              (Stats.mk_disk
                 (Some {["5" := Stats.mk_user_data (Some "bob")
                                  (Some {["global" := Stats.zero_bucket]}) ∅]})
                 false []) !! uid)
    /\ Stats.stored d' !! pretty 7 = Some u'
    /\ Stats.username u' = Some "ann".
Proof.
  refine (increment_leaves_others (Some "ann") 7 "mentions" None
            (Stats.mk_disk
               (Some {["5" := Stats.mk_user_data (Some "bob")
                                (Some {["global" := Stats.zero_bucket]}) ∅]})
               false []) _ _ _); [reflexivity| |].
  - unfold Stats.known.
    apply list_elem_of_further, list_elem_of_further, list_elem_of_here.
  - change (Stats.well_formed
              {["5" := Stats.mk_user_data (Some "bob")
                         (Some {["global" := Stats.zero_bucket]}) ∅]}).
    intros uid u [<- <-]%lookup_singleton_Some. eexists. split; [reflexivity|].
    intros k b [<- <-]%lookup_singleton_Some. apply zero_bucket_complete.
Defined.

Lemma old_format_is_migrated_witness :
  Stats.well_formed
    (Stats.stored
       (Stats.mk_disk
          (Some {[pretty 7 := Stats.mk_user_data None None {["mentions" := 3]}]})
          false []))
  /\ Stats.counter
       (Stats.stored
          (Stats.mk_disk
             (Some {[pretty 7 := Stats.mk_user_data None None {["mentions" := 3]}]})
             false []))
       7 "global" "mentions"
     = default 0
         (Stats.flat (Stats.mk_user_data None None {["mentions" := 3]})
            !! "mentions")
  /\ Stats.username
       <$> Stats.stored
             (Stats.mk_disk
                (Some {[pretty 7 := Stats.mk_user_data None None {["mentions" := 3]}]})
                false []) !! pretty 7
     = Some (Some (default "Unknown"
                     (Stats.username
                        (Stats.mk_user_data None None {["mentions" := 3]})))).
Proof.
  apply (old_format_is_migrated
           (Stats.mk_disk
              (Some {[pretty 7 := Stats.mk_user_data None None {["mentions" := 3]}]})
              false [])
           {[pretty 7 := Stats.mk_user_data None None {["mentions" := 3]}]}
           7 (Stats.mk_user_data None None {["mentions" := 3]}) "mentions").
  - reflexivity.
  - by intros uid u [<- <-]%lookup_singleton_Some.
  - apply lookup_singleton_eq.
  - unfold Stats.known.
    apply list_elem_of_further, list_elem_of_further, list_elem_of_here.
Defined.

(** ** The queue counter and the worker's way out *)

Section WorkerEdges.
Import Worker WorkerInvariant.

Lemma counted_set_processing (b : bool) (q : FluxQueue.t item) :
  FluxQueue.counted q -> FluxQueue.counted (FluxQueue.set_processing b q).
Proof. done. Qed.

Lemma get_keeps_shutdown (q q' : FluxQueue.t item) (it : item) :
  FluxQueue.get q = Some (it, q') ->
  FluxQueue._shutdown q' = FluxQueue._shutdown q.
Proof.
  unfold FluxQueue.get. destruct (AsyncQueue.get_nowait _) as [[x q0]|]; [|done].
  by intros [= _ <-].
Qed.

Lemma live_counted_worker_step o s s' :
  worker_step o s = Some s' -> live_counted s -> live_counted s'.
Proof.
  intros Hstep [Hc Hx]. unfold worker_step in Hstep.
  destruct (at_pc s) eqn:Hat.
  - destruct (FluxQueue._shutdown (queue s)) eqn:Hsh;
      [|destruct (FluxQueue._processing (queue s)) eqn:Hpr];
      injection Hstep as <-; split; cbn; try done; try (intros; congruence); auto.
  - injection Hstep as <-. split; cbn; [auto|done].
  - destruct (FluxQueue.get (queue s)) as [[it q']|] eqn:Hget; [|done].
    injection Hstep as <-. split; cbn; [|done].
    rewrite (get_keeps_shutdown _ _ _ Hget). intros Hsh.
    eapply counted_get; eauto.
  - injection Hstep as <-. split; cbn; [auto|done].
  - done.
Qed.

Lemma live_counted_env_step s s' :
  env_step s s' -> live_counted s -> live_counted s'.
Proof.
  intros Hstep [Hc Hx]. destruct Hstep as [it s|s q' Hq'].
  - split; cbn; [|done]. intros Hsh. apply counted_put. auto.
  - assert (Hsh : FluxQueue._shutdown q' = true).
    { unfold FluxQueue.initiate_shutdown in Hq'.
      destruct (FluxQueue.drain _ _); [|done]. by injection Hq' as <-. }
    split; cbn; [by rewrite Hsh|done].
Qed.

Lemma live_counted_reachable s : reachable s -> live_counted s.
Proof.
  unfold reachable. intros H. revert s H. apply rtc_ind_r.
  - split; [reflexivity|done].
  - intros s0 s1 _ Hstep IH. destruct Hstep.
    + by eapply live_counted_worker_step.
    + by eapply live_counted_env_step.
Qed.

(** X18. In every state the program can reach before a shutdown,
    [qsize()] is the number of jobs the queue holds, which is the number
    of jobs enqueued so far less the number dispatched. *)
Theorem qsize_counts_until_shutdown (s : state) :
  reachable s ->
  FluxQueue._shutdown (queue s) = false ->
  FluxQueue.qsize (queue s) = Z.of_nat (length (FluxQueue.held (queue s)))
  /\ FluxQueue.qsize (queue s)
     = Z.of_nat (length (enqueued (trace s)))
       - Z.of_nat (length (dispatched (trace s))).
Proof.
  intros Hr Hsh. destruct (live_counted_reachable s Hr) as [Hc _].
  destruct (invariant_reachable s Hr) as [Hfifo Hlive _ _].
  specialize (Hc Hsh). unfold FluxQueue.counted in Hc. split; [done|].
  rewrite Hc, <- Hfifo, (Hlive Hsh), length_app. lia.
Qed.

(** X19. The worker never takes the branch that sleeps because a job is
    already marked as processing, and it leaves its loop only after a
    shutdown; having left, it moves no more. *)
Theorem worker_never_skips (s : state) :
  reachable s ->
  at_pc s <> Sleeping
  /\ (at_pc s = LoopTop -> FluxQueue._processing (queue s) = false)
  /\ (at_pc s = Exited ->
      FluxQueue._shutdown (queue s) = true
      /\ forall o, worker_step o s = None).
Proof.
  intros Hr. destruct (live_counted_reachable s Hr) as [_ Hx].
  destruct (invariant_reachable s Hr) as [_ _ _ Hpc].
  split; [|split].
  - intros Hat. by rewrite Hat in Hpc.
  - intros Hat. rewrite Hat in Hpc. by destruct Hpc.
  - intros Hat. split; [auto|]. intros o. unfold worker_step. by rewrite Hat.
Qed.

End WorkerEdges.

Lemma qsize_counts_until_shutdown_witness :
  FluxQueue.qsize (FluxQueue.put (Worker.flux 1 "a cat" "wide" None)
                     FluxQueue.init)
  = Z.of_nat (length (FluxQueue.held
                        (FluxQueue.put (Worker.flux 1 "a cat" "wide" None)
                           FluxQueue.init)))
  /\ FluxQueue.qsize (FluxQueue.put (Worker.flux 1 "a cat" "wide" None)
                        FluxQueue.init)
     = Z.of_nat (length (Worker.enqueued
                           [Worker.Put (Worker.flux 1 "a cat" "wide" None)]))
       - Z.of_nat (length (Worker.dispatched
                             [Worker.Put (Worker.flux 1 "a cat" "wide" None)])).
Proof.
  apply (qsize_counts_until_shutdown
           (Worker.mk (FluxQueue.put (Worker.flux 1 "a cat" "wide" None)
                         FluxQueue.init)
              Worker.LoopTop [] [Worker.Put (Worker.flux 1 "a cat" "wide" None)]));
    [|reflexivity].
  eapply rtc_l; [|apply rtc_refl].
  apply Worker.step_env.
  apply (Worker.env_put (Worker.flux 1 "a cat" "wide" None) Worker.init).
Defined.

Lemma worker_never_skips_witness :
  Worker.at_pc
    (Worker.mk (FluxQueue.set_processing true FluxQueue.init) Worker.Waiting [] [])
  <> Worker.Sleeping
  /\ (Worker.at_pc
        (Worker.mk (FluxQueue.set_processing true FluxQueue.init)
           Worker.Waiting [] []) = Worker.LoopTop ->
      FluxQueue._processing
        (Worker.queue
           (Worker.mk (FluxQueue.set_processing true FluxQueue.init)
              Worker.Waiting [] [])) = false)
  /\ (Worker.at_pc
        (Worker.mk (FluxQueue.set_processing true FluxQueue.init)
           Worker.Waiting [] []) = Worker.Exited ->
      FluxQueue._shutdown
        (Worker.queue
           (Worker.mk (FluxQueue.set_processing true FluxQueue.init)
              Worker.Waiting [] [])) = true
      /\ forall o,
           Worker.worker_step o
             (Worker.mk (FluxQueue.set_processing true FluxQueue.init)
                Worker.Waiting [] []) = None).
Proof.
  apply (worker_never_skips
           (Worker.mk (FluxQueue.set_processing true FluxQueue.init)
              Worker.Waiting [] [])).
  eapply rtc_l; [|apply rtc_refl].
  by apply (Worker.step_worker Worker.Returned Worker.init).
Defined.

(** ** The image pipeline: when an image is sent *)

Section FluxEdges.
Import Flux.

Lemma tell_no_image (i : interaction) (text : string) :
  image_sent ∉ tell i text.
Proof.
  unfold tell. intros H.
  destruct (is_interaction i); [|by apply elem_of_nil in H].
  apply elem_of_cons in H as [H|H]; [done|].
  destruct (handler_send i); [by apply elem_of_nil in H|].
  by apply list_elem_of_singleton in H.
Qed.

Lemma on_unexpected_no_image (i : interaction) (e : string) :
  image_sent ∉ on_unexpected i e.
Proof.
  unfold on_unexpected. intros H.
  apply elem_of_cons in H as [H|H]; [done|].
  by apply tell_no_image in H.
Qed.

(** X20. [generate_flux_image] sends an image exactly when the image
    service answers 200 and the sending goes through; in every other
    case it writes an error line to the log, before any error message
    to the requester. *)
Theorem image_sent_only_on_200 (i : interaction) (a : attempt) :
  (image_sent ∈ generate_flux_image i a
   <-> a = Responded 200 /\ deliver i = Worker.Returned)
  /\ ((image_sent ∉ generate_flux_image i a) ->
      exists line rest, generate_flux_image i a = logged line :: rest).
Proof.
  destruct a as [status| | |e]; cbn.
  - destruct (Z.eqb_spec status 200) as [->|Hne].
    + destruct (deliver i) eqn:Hd.
      * split; [split; [done|intros _; apply list_elem_of_here]|].
        intros H. destruct H. apply list_elem_of_here.
      * split; [|intros _; by eexists _, _].
        split; [intros H; by apply on_unexpected_no_image in H|].
        by intros [_ [=]].
    + split; [|intros _; by eexists _, _].
      split; [|intros [[= ->] _]; done].
      intros H. apply elem_of_cons in H as [H|H]; [done|].
      by apply on_unexpected_no_image in H.
  - split; [|intros _; by eexists _, _].
    split; [|by intros [[=] _]].
    intros H. apply elem_of_cons in H as [H|H]; [done|].
    by apply tell_no_image in H.
  - split; [|intros _; by eexists _, _].
    split; [|by intros [[=] _]].
    intros H. apply elem_of_cons in H as [H|H]; [done|].
    by apply tell_no_image in H.
  - split; [|intros _; by eexists _, _].
    split; [|by intros [[=] _]].
    intros H. by apply on_unexpected_no_image in H.
Qed.

End FluxEdges.

(** ** Dimensions: what the command and the edit dialog put on the queue *)

Lemma adjust_to_multiple_of_64_multiple (value : Z) :
  64 <= EditImageModal.adjust_to_multiple_of_64 value
  /\ EditImageModal.adjust_to_multiple_of_64 value mod 64 = 0
  /\ (0 < value ->
      value <= EditImageModal.adjust_to_multiple_of_64 value < value + 64)
  /\ (value <= 0 -> EditImageModal.adjust_to_multiple_of_64 value = 64).
Proof.
  unfold EditImageModal.adjust_to_multiple_of_64.
  destruct (Z.leb_spec value 0) as [Hle|Hlt].
  - repeat split; lia.
  - pose proof (Z.div_mod (value + 63) 64 ltac:(lia)) as Hdm.
    pose proof (Z.mod_pos_bound (value + 63) 64 ltac:(lia)) as Hb.
    rewrite Z.mod_mul by lia. repeat split; lia.
Qed.

Section Dimensions.
Import FluxCommand EditSubmit.

Variable strip : string -> string.
Variable int : string -> option Z.
Variable isdigit : string -> bool.

(** X21. Whatever is typed into the edit dialog, [on_submit] either
    leaves the queue as it is or appends one edit job whose width and
    height are multiples of 64 and at least 64: for a positive number
    typed, not below it and less than 64 above it; for a number typed
    that is not positive, 64.  It leaves the queue as it is exactly when
    the first message fails, the width or the height is no integer, or
    the seed is made of digits that [int] rejects. *)
Theorem edit_submit_enqueues_multiples_of_64 (interaction : Z) (m : modal)
    (send_message : Worker.outcome) (randint : Z)
    (q : FluxQueue.t Worker.item) :
  let (q', _) := on_submit strip int isdigit interaction m send_message randint q in
  let refused :=
    send_message <> Worker.Returned
    \/ int (strip (width_input m)) = None
    \/ int (strip (height_input m)) = None
    \/ (isdigit (strip (seed_input m)) = true
        /\ int (strip (seed_input m)) = None) in
  (refused -> q' = q)
  /\ (~ refused ->
      exists original_width original_height width height seed,
        int (strip (width_input m)) = Some original_width
        /\ int (strip (height_input m)) = Some original_height
        /\ FluxQueue.held q'
           = (FluxQueue.held q
              ++ [Worker.button interaction Worker.edit
                    (Some (strip (image_description m))) width height
                    (Some seed)])%list
        /\ FluxQueue.qsize q' = FluxQueue.qsize q + 1
        /\ 64 <= width /\ width mod 64 = 0
        /\ (0 < original_width ->
            original_width <= width < original_width + 64)
        /\ (original_width <= 0 -> width = 64)
        /\ 64 <= height /\ height mod 64 = 0
        /\ (0 < original_height ->
            original_height <= height < original_height + 64)
        /\ (original_height <= 0 -> height = 64)).
Proof.
  unfold on_submit.
  destruct send_message as [|e].
  2:{ split; [done|]. intros H. destruct H. by left. }
  destruct (int (strip (width_input m))) as [ow|] eqn:Hw.
  2:{ split; [done|]. intros H. destruct H. right. by left. }
  destruct (int (strip (height_input m))) as [oh|] eqn:Hh.
  2:{ split; [done|]. intros H. destruct H. right. right. by left. }
  destruct (isdigit (strip (seed_input m))) eqn:Hd.
  - destruct (int (strip (seed_input m))) as [sd|] eqn:Hs.
    + split.
      * intros [H|[H|[H|[_ H]]]]; done.
      * intros _.
        destruct (adjust_to_multiple_of_64_multiple ow) as (? & ? & ? & ?).
        destruct (adjust_to_multiple_of_64_multiple oh) as (? & ? & ? & ?).
        by eexists ow, oh, _, _, sd.
    + split; [done|]. intros H. destruct H. right. right. by right.
  - split.
    + intros [H|[H|[H|[H _]]]]; done.
    + intros _.
      destruct (adjust_to_multiple_of_64_multiple ow) as (? & ? & ? & ?).
      destruct (adjust_to_multiple_of_64_multiple oh) as (? & ? & ? & ?).
      by eexists ow, oh, _, _, randint.
Qed.

(** X22. Whatever size the [/flux] command is given, the image asked
    for has one of four dimensions, 1024 by 1024 unless the size is
    wide, tall or small; and these are dimensions that the rounding of
    the edit dialog leaves as they are. *)
Theorem flux_command_dimensions (size : option string) :
  let (width, height) := dims (size_value size) in
  (width, height) ∈ [(1024, 1024); (1920, 1024); (1024, 1920); (512, 512)]
  /\ ((size_value size ∉ ["wide"; "tall"; "small"]) ->
      (width, height) = (1024, 1024))
  /\ EditImageModal.adjust_to_multiple_of_64 width = width
  /\ EditImageModal.adjust_to_multiple_of_64 height = height.
Proof.
  unfold dims.
  destruct (String.eqb_spec (size_value size) "wide") as [->|Hw].
  { split; [apply list_elem_of_further, list_elem_of_here|].
    split; [|done]. intros H. destruct H. apply list_elem_of_here. }
  destruct (String.eqb_spec (size_value size) "tall") as [->|Ht].
  { split; [apply list_elem_of_further, list_elem_of_further, list_elem_of_here|].
    split; [|done]. intros H. destruct H.
    apply list_elem_of_further, list_elem_of_here. }
  destruct (String.eqb_spec (size_value size) "small") as [->|Hs].
  { split; [do 3 apply list_elem_of_further; apply list_elem_of_here|].
    split; [|done]. intros H. destruct H.
    do 2 apply list_elem_of_further. apply list_elem_of_here. }
  split; [apply list_elem_of_here|]. by split.
Qed.

End Dimensions.

(** ** The summary of a page *)

Section UrlSummary.
Import UrlContent.

Variable isspace : N -> bool.

#[local] Abbreviation ink := (Text.ink isspace).

Lemma join_cons_length (word : list N) (rest : list (list N)) :
  (length (join (word :: rest)) <= length word + 1 + length (join rest))%nat.
Proof.
  cbn [join]. destruct rest as [|w rest]; [lia|].
  rewrite length_app. cbn [length]. lia.
Qed.

Lemma split_go_length (s : list N) : forall word : list N,
  (length (join (split_go isspace word s)) <= length word + length s)%nat.
Proof.
  induction s as [|c s IH]; intros word; cbn [split_go].
  - destruct word; cbn; lia.
  - destruct (isspace c).
    + destruct word as [|d word].
      * specialize (IH []). cbn in *. lia.
      * etrans; [apply join_cons_length|]. specialize (IH []). cbn in *. lia.
    + specialize (IH (word ++ [c])%list). rewrite length_app in IH.
      cbn in *. lia.
Qed.

Hypothesis space_isspace : isspace Text.space = true.

Lemma join_cons_ink (word : list N) (rest : list (list N)) :
  ink (join (word :: rest)) = (ink word ++ ink (join rest))%list.
Proof.
  cbn [join]. destruct rest as [|w rest]; [by rewrite app_nil_r|].
  unfold Text.ink. rewrite List.filter_app. cbn [List.filter].
  by rewrite space_isspace.
Qed.

Lemma split_go_ink (s : list N) : forall word : list N,
  ink (join (split_go isspace word s)) = (ink word ++ ink s)%list.
Proof.
  induction s as [|c s IH]; intros word; cbn [split_go].
  - destruct word; [done|]. cbn [join]. by rewrite app_nil_r.
  - destruct (isspace c) eqn:Hc.
    + assert (Hs : ink (c :: s) = ink s).
      { unfold Text.ink. cbn. by rewrite Hc. }
      rewrite Hs. destruct word as [|d word].
      * apply (IH []).
      * by rewrite join_cons_ink, (IH []).
    + rewrite IH. unfold Text.ink. rewrite List.filter_app. cbn.
      rewrite Hc. cbn. by rewrite <- app_assoc.
Qed.

(** X23. The summary of a page that [extract_url_content] returns has at
    most 500 code points, and is never longer than the text extracted.
    A text of at most 500 code points is not cut: its summary has the
    same code points other than whitespace, in the same order. *)
Theorem url_summary_is_bounded (content : list N) :
  (length (summary isspace content) <= 500)%nat
  /\ (length (summary isspace content) <= length content)%nat
  /\ ((length content <= 500)%nat ->
      summary isspace content = join (split isspace content)
      /\ ink (summary isspace content) = ink content).
Proof.
  pose proof (split_go_length content []) as Hlen. cbn [length] in Hlen.
  unfold summary, split in *.
  destruct (Z.ltb_spec 500 (Z.of_nat (length (join (split_go isspace [] content)))))
    as [Hlong|Hshort].
  - rewrite length_app, length_take. cbn [length].
    split; [lia|]. split; [lia|]. intros Hc. lia.
  - split; [lia|]. split; [lia|]. intros _. split; [done|].
    by rewrite split_go_ink.
Qed.

End UrlSummary.

Lemma url_summary_is_bounded_witness :
  (length (UrlContent.summary Text.Py_UNICODE_ISSPACE
             [104; 105; 32; 32; 10; 121; 111; 117; 32]%N) <= 500)%nat
  /\ (length (UrlContent.summary Text.Py_UNICODE_ISSPACE
                [104; 105; 32; 32; 10; 121; 111; 117; 32]%N)
      <= length [104; 105; 32; 32; 10; 121; 111; 117; 32]%N)%nat
  /\ ((length [104; 105; 32; 32; 10; 121; 111; 117; 32]%N <= 500)%nat ->
      UrlContent.summary Text.Py_UNICODE_ISSPACE
        [104; 105; 32; 32; 10; 121; 111; 117; 32]%N
      = UrlContent.join
          (UrlContent.split Text.Py_UNICODE_ISSPACE
             [104; 105; 32; 32; 10; 121; 111; 117; 32]%N)
      /\ Text.ink Text.Py_UNICODE_ISSPACE
           (UrlContent.summary Text.Py_UNICODE_ISSPACE
              [104; 105; 32; 32; 10; 121; 111; 117; 32]%N)
         = Text.ink Text.Py_UNICODE_ISSPACE
             [104; 105; 32; 32; 10; 121; 111; 117; 32]%N).
Proof.
  apply (url_summary_is_bounded Text.Py_UNICODE_ISSPACE); reflexivity.
Defined.
